(** * Flaggly: the evaluation engine and the definition store

    A shallow embedding of [src/engine.ts] (hashing, bucketing, rollout
    steps, the flag decision) and of [AppKV.syncEnv] from [src/storage.ts],
    with the properties the specification states about them.

    Conventions of the embedding.
    - A JavaScript string is the list of its UTF-16 code units, which is what
      [String.prototype.charCodeAt] reads.
    - A JavaScript number that the engine handles (a time in milliseconds, a
      percentage, a weight, a bucket) is an integer here ([Z]); [NaN], which
      [new Date(s).getTime()] yields for an unparseable date, is the [None]
      of an [option Z].  Fractional percentages and weights are left out.
    - The expression evaluator ([jexl.evalSync]) and the date parser
      ([new Date(_).getTime()]) are host functions: the engine is
      parameterised by them.  A call either returns a value or throws.
    - A plain object inherits the members of [Object.prototype].  Where the
      code reads a segment map by name, or assigns by name into an object it
      builds ([flagSegments], [flagResult]) or into a document ([putFlag],
      [putSegment]), the inherited members and the setter behind the name
      [__proto__] are modelled.  The loops of the synchronisation and of
      [deleteSegment] run over the own keys of parsed documents; there the
      key [__proto__] is taken not to occur.
    - A document read from the KV store is the document that was written:
      the JSON round trip is the identity on the documents of the schema. *)

From Stdlib Require Import ZArith Lia String Ascii.
From stdpp Require Import base option list sorting gmap fin_maps.

Local Open Scope Z_scope.
Set Warnings "-register-all".

(** ** Strings *)

Module JsString.

(** UTF-16 code units. *)
Abbreviation t := (list Z).

(** The code units of an ASCII literal. *)
Definition js (s : string) : t :=
  (λ a, Z.of_N (N_of_ascii a)) <$> list_ascii_of_string s.

Definition wf (s : t) : Prop := Forall (λ c, 0 <= c < 65536) s.
Definition is_ascii (s : t) : Prop := Forall (λ c, 0 <= c < 128) s.

(** [`${x}`] for a value that is a string or [undefined]. *)
Definition interpolate (x : option t) : t :=
  match x with
  | Some s => s
  | None => js "undefined"
  end.

(** Truthiness of a string: every string but the empty one. *)
Definition truthy (s : t) : bool :=
  match s with
  | [] => false
  | _ :: _ => true
  end.

(** The UTF-8 encoding of a string, as [TextEncoder] produces it: surrogate
    pairs are combined, a lone surrogate becomes U+FFFD. *)
Definition utf8_of_code_point (cp : Z) : list Z :=
  if cp <? 128 then [cp]
  else if cp <? 2048 then
    [Z.lor 192 (Z.shiftr cp 6); Z.lor 128 (Z.land cp 63)]
  else if cp <? 65536 then
    [Z.lor 224 (Z.shiftr cp 12);
     Z.lor 128 (Z.land (Z.shiftr cp 6) 63);
     Z.lor 128 (Z.land cp 63)]
  else
    [Z.lor 240 (Z.shiftr cp 18);
     Z.lor 128 (Z.land (Z.shiftr cp 12) 63);
     Z.lor 128 (Z.land (Z.shiftr cp 6) 63);
     Z.lor 128 (Z.land cp 63)].

Definition is_high_surrogate (c : Z) : bool := (55296 <=? c) && (c <? 56320).
Definition is_low_surrogate (c : Z) : bool := (56320 <=? c) && (c <? 57344).

Fixpoint utf8 (s : t) : list Z :=
  match s with
  | [] => []
  | c :: r =>
      if is_high_surrogate c then
        match r with
        | lo :: r' =>
            if is_low_surrogate lo then
              utf8_of_code_point
                (65536 + (c - 55296) * 1024 + (lo - 56320)) ++ utf8 r'
            else utf8_of_code_point 65533 ++ utf8 r
        | [] => utf8_of_code_point 65533
        end
      else if is_low_surrogate c then utf8_of_code_point 65533 ++ utf8 r
      else utf8_of_code_point c ++ utf8 r
  end.

End JsString.

Abbreviation jsstring := JsString.t.
Abbreviation js := JsString.js.

(** ** 32-bit integer operations of JavaScript *)

Module Int32.

Definition ToInt32 (z : Z) : Z := (z + 2 ^ 31) mod 2 ^ 32 - 2 ^ 31.
Definition ToUint32 (z : Z) : Z := z mod 2 ^ 32.

(** [a << n] *)
Definition shl (a n : Z) : Z := ToInt32 (Z.shiftl (ToInt32 a) n).

(** [a ^ b] *)
Definition xor (a b : Z) : Z := ToInt32 (Z.lxor (ToInt32 a) (ToInt32 b)).

(** [a >>> 0] *)
Definition ushr0 (a : Z) : Z := ToUint32 a.

End Int32.

(** ** Hash and bucket *)

(** One turn of the loop of [hashFnv32a]:
    [hval ^= c; hval += (hval << 1) + (hval << 4) + (hval << 7) + (hval << 8) + (hval << 24)].
    The sum is a sum of doubles; it is exact because every summand is a
    32-bit integer (see [hashStep_exact]). *)
Definition hashStep (hval c : Z) : Z :=
  let hval := Int32.xor hval c in
  hval + (Int32.shl hval 1 + Int32.shl hval 4 + Int32.shl hval 7
          + Int32.shl hval 8 + Int32.shl hval 24).

Definition hashFnv32a (str : jsstring) : Z :=
  Int32.ushr0 (fold_left hashStep str 2166136261).

Definition userPercentageHash (userId : option jsstring) (flagKey : jsstring) : Z :=
  let input := JsString.interpolate userId ++ js ":" ++ flagKey in
  let hash := hashFnv32a input in
  Z.rem hash 100 + 1.

(** The reference FNV-1a hash, 32 bits, of a sequence of octets (or of any
    sequence of numbers, each folded in whole). *)
Definition fnv1a32 (data : list Z) : Z :=
  fold_left (λ h c, (Z.lxor h c * 16777619) mod 2 ^ 32) data 2166136261.

(** The bucket as the specification words it. *)
Definition bucket_spec (identity flagKey : jsstring) : Z :=
  fnv1a32 (JsString.utf8 (identity ++ js ":" ++ flagKey)) mod 100 + 1.


(** ** Values, and calls that may throw *)

Inductive jsval : Type :=
| JUndefined
| JNull
| JBool (b : bool)
| JNum (n : Z)
| JNaN
| JStr (s : jsstring)
| JArr (items : list jsval)
| JObj (fields : list (jsstring * jsval)).

(** The coercion to boolean that [if], [&&], [?:], [Array.prototype.every]
    and [Array.prototype.some] apply. *)
Definition ToBoolean (v : jsval) : bool :=
  match v with
  | JUndefined | JNull | JNaN => false
  | JBool b => b
  | JNum n => negb (n =? 0)
  | JStr s => JsString.truthy s
  | JArr _ | JObj _ => true
  end.

(** [a ?? b] *)
Definition nullish (a b : jsval) : jsval :=
  match a with
  | JUndefined | JNull => b
  | _ => a
  end.

Inductive exn : Type :=
| Error (message : string)
| TypeError (message : string).

Inductive outcome (A : Type) : Type :=
| Return (a : A)
| Throw (e : exn).

Arguments Return {A} a.
Arguments Throw {A} e.

#[global] Instance outcome_ret : MRet outcome := @Return.
#[global] Instance outcome_bind : MBind outcome :=
  λ A B f m, match m with Return a => f a | Throw e => Throw e end.

(** [xs.every(f)] and [xs.some(f)], for a callback that may throw. *)
Fixpoint every {A} (f : A → outcome jsval) (xs : list A) : outcome bool :=
  match xs with
  | [] => Return true
  | x :: xs' => v ← f x; if ToBoolean v then every f xs' else Return false
  end.

Fixpoint some {A} (f : A → outcome jsval) (xs : list A) : outcome bool :=
  match xs with
  | [] => Return false
  | x :: xs' => v ← f x; if ToBoolean v then Return true else some f xs'
  end.

(** ** Objects used as maps, where the order of the properties matters *)

Module JsObject.

(** Own properties in the order of their creation; keys are unique. *)
Abbreviation t A := (list (jsstring * A)).

(** [o[k] = v] *)
Fixpoint set {A} (o : t A) (k : jsstring) (v : A) : t A :=
  match o with
  | [] => [(k, v)]
  | (k', v') :: o' =>
      if decide (k' = k) then (k, v) :: o' else (k', v') :: set o' k v
  end.

(** The own property [k], if there is one. *)
Fixpoint get {A} (o : t A) (k : jsstring) : option A :=
  match o with
  | [] => None
  | (k', v') :: o' => if decide (k' = k) then Some v' else get o' k
  end.

(** The names of the members of [Object.prototype], which every plain
    object inherits: methods, and under [__proto__] the prototype itself. *)
Definition prototypeNames : list jsstring :=
  [js "constructor"; js "__defineGetter__"; js "__defineSetter__";
   js "hasOwnProperty"; js "__lookupGetter__"; js "__lookupSetter__";
   js "isPrototypeOf"; js "propertyIsEnumerable"; js "toString";
   js "valueOf"; js "__proto__"; js "toLocaleString"].

(** [o[k] = v] on a plain object.  Under the name [__proto__], unless the
    object has an own property of that name, the assignment goes to the
    setter of the prototype and creates no property; what it does to the
    prototype does not show in the own properties. *)
Definition assign {A} (o : t A) (k : jsstring) (v : A) : t A :=
  if bool_decide (k = js "__proto__") && negb (bool_decide (is_Some (get o k)))
  then o
  else set o k v.

Definition digit (c : Z) : option Z :=
  if (48 <=? c) && (c <=? 57) then Some (c - 48) else None.

Fixpoint digits (acc : Z) (s : jsstring) : option Z :=
  match s with
  | [] => Some acc
  | c :: s' => d ← digit c; digits (acc * 10 + d) s'
  end.

(** A key is an array index when it is the canonical decimal form of an
    integer below 2^32 - 1. *)
Definition array_index (k : jsstring) : option Z :=
  match k with
  | [] => None
  | c :: k' =>
      if (c =? 48) && negb (bool_decide (k' = [])) then None
      else n ← digits 0 k; if n <? 2 ^ 32 - 1 then Some n else None
  end.

Definition indexed {A} (o : t A) : list (Z * A) :=
  omap (λ kv, (λ i, (i, kv.2)) <$> array_index kv.1) o.

Definition named {A} (o : t A) : list (jsstring * A) :=
  filter (λ kv, array_index kv.1 = None) o.

(** [Object.values(o)]: array indices first, in ascending order, then the
    other keys in the order of their creation. *)
Definition index_le {A} (x y : Z * A) : Prop := x.1 ≤ y.1.

#[global] Instance index_le_dec {A} (x y : Z * A) : Decision (index_le x y) :=
  decide (x.1 ≤ y.1).

Definition values {A} (o : t A) : list A :=
  (snd <$> merge_sort index_le (indexed o)) ++ (snd <$> named o).

End JsObject.

(** ** The schema ([src/schema.ts]) *)

Record Variation : Type := {
  var_id : jsstring;
  (** an integer weight; fractional weights are left out *)
  var_weight : Z;
  (** [JUndefined] when the variation carries no payload *)
  var_payload : jsval
}.

Record RolloutStep : Type := {
  step_start : jsstring;
  step_percentage : option Z;
  step_segment : option jsstring
}.

(** The discriminated union on [type]. *)
Inductive FlagType : Type :=
| TBoolean
| TPayload (payload : jsval)
| TVariant (variations : list Variation).

Record FeatureFlag : Type := {
  flag_id : jsstring;
  flag_enabled : bool;
  flag_rules : list jsstring;
  flag_segments : list jsstring;
  flag_rollout : Z;
  flag_rollouts : list RolloutStep;
  flag_isTrackable : bool;
  flag_type : FlagType
}.

Definition set_enabled (b : bool) (flag : FeatureFlag) : FeatureFlag :=
  {| flag_id := flag_id flag; flag_enabled := b;
     flag_rules := flag_rules flag; flag_segments := flag_segments flag;
     flag_rollout := flag_rollout flag; flag_rollouts := flag_rollouts flag;
     flag_isTrackable := flag_isTrackable flag; flag_type := flag_type flag |}.

Definition set_rollout (pct : Z) (flag : FeatureFlag) : FeatureFlag :=
  {| flag_id := flag_id flag; flag_enabled := flag_enabled flag;
     flag_rules := flag_rules flag; flag_segments := flag_segments flag;
     flag_rollout := pct; flag_rollouts := flag_rollouts flag;
     flag_isTrackable := flag_isTrackable flag; flag_type := flag_type flag |}.

Definition set_segments (segs : list jsstring) (flag : FeatureFlag) : FeatureFlag :=
  {| flag_id := flag_id flag; flag_enabled := flag_enabled flag;
     flag_rules := flag_rules flag; flag_segments := segs;
     flag_rollout := flag_rollout flag; flag_rollouts := flag_rollouts flag;
     flag_isTrackable := flag_isTrackable flag; flag_type := flag_type flag |}.

Record FlagEvaluationInput : Type := {
  input_id : option jsstring;
  input_user : jsval;
  input_page : jsval;
  input_geo : jsval;
  input_request : jsval
}.

Definition set_input_id (i : option jsstring) (input : FlagEvaluationInput)
  : FlagEvaluationInput :=
  {| input_id := i; input_user := input_user input;
     input_page := input_page input; input_geo := input_geo input;
     input_request := input_request input |}.

Inductive ResultType : Type := RBoolean | RPayload | RVariant.

Record FlagResult : Type := {
  res_type : ResultType;
  res_result : jsval;
  res_isEval : bool
}.

(** ** The engine ([src/engine.ts]) *)

Fixpoint chooseVariant_from (bucket cumulative : Z) (variants : list Variation)
  : option jsstring :=
  match variants with
  | [] => None
  | v :: variants' =>
      let cumulative := cumulative + var_weight v in
      if bucket <=? cumulative then Some (var_id v)
      else chooseVariant_from bucket cumulative variants'
  end.

(** [None] is the [null] of the source. *)
Definition chooseVariant (userId : option jsstring) (flagKey : jsstring)
    (variants : list Variation) : option jsstring :=
  let bucket := userPercentageHash userId flagKey in
  chooseVariant_from bucket 0 variants.

(** The sum of the weights of the variations. *)
Definition totalWeight (variants : list Variation) : Z :=
  foldr (λ v acc, var_weight v + acc) 0 variants.

Definition isUserInRollout (userId : option jsstring) (flagKey : jsstring)
    (percentage : Z) : bool :=
  if percentage =? 100 then true
  else
    let bucket := userPercentageHash userId flagKey in
    bucket <=? percentage.

Definition getDefaultFlag (flag : FeatureFlag) : FlagResult :=
  match flag_type flag with
  | TBoolean =>
      {| res_type := RBoolean; res_result := JBool false; res_isEval := false |}
  | TPayload _ =>
      {| res_type := RPayload; res_result := JNull; res_isEval := false |}
  | TVariant variations =>
      {| res_type := RVariant;
         res_result :=
           match variations with
           | v :: _ => nullish (var_payload v) (JStr (var_id v))
           | [] => JUndefined
           end;
         res_isEval := false |}
  end.

(** The function that [jexl.addFunction("now", _)] last registered. *)
Inductive NowFn : Type :=
| WallClock
| Fixed (now : Z).

(** [now < startTime], where [startTime] may be [NaN]. *)
Definition lt_number (now : Z) (startTime : option Z) : bool :=
  match startTime with
  | Some t => now <? t
  | None => false
  end.

(** What a read by name yields where the engine expects the rule of a
    segment: a string, [undefined], or a member of [Object.prototype] that
    the object inherits under that name. *)
Inductive segval : Type :=
| Rule (rule : jsstring)
| Undefined
| Member (name : jsstring).

(** Truthiness: a function and an object are truthy. *)
Definition truthy_segval (v : segval) : bool :=
  match v with
  | Rule rule => JsString.truthy rule
  | Undefined => false
  | Member _ => true
  end.

(** [segments[k]] on the segments of the tenant: the own property, else the
    member inherited under that name, else [undefined]. *)
Definition tenantRule (segments : gmap jsstring jsstring) (k : jsstring) : segval :=
  match segments !! k with
  | Some rule => Rule rule
  | None =>
      if bool_decide (k ∈ JsObject.prototypeNames) then Member k else Undefined
  end.

(** [flag.segments.reduce((acc, k) => { acc[k] = segments[k]; return acc }, {})] *)
Definition flagSegmentsOf (flagSegmentKeys : list jsstring)
    (segments : gmap jsstring jsstring) : JsObject.t segval :=
  fold_left
    (λ acc segmentKey, JsObject.assign acc segmentKey (tenantRule segments segmentKey))
    flagSegmentKeys [].

(** [segments[k]] on the object that a step is given: the own property, else
    the member inherited under that name, else [undefined]. *)
Definition segmentRule (segments : JsObject.t segval) (k : jsstring) : segval :=
  match JsObject.get segments k with
  | Some v => v
  | None =>
      if bool_decide (k ∈ JsObject.prototypeNames) then Member k else Undefined
  end.

Section Engine.

(** [jexl.evalSync(expression, context)] under the registered [now()]; the
    expression is [None] when the source passes [undefined]. *)
Variable evalSync : NowFn → option jsstring → FlagEvaluationInput → outcome jsval.

(** [new Date(s).getTime()]; [None] is [NaN]. *)
Variable dateGetTime : jsstring → option Z.

(** [jexl.evalSync(v, input)] for what a read by name yielded.  jexl
    tokenises its expression with the [split] of strings, which a function
    and a plain object do not have: for a member of [Object.prototype] the
    call throws a [TypeError]. *)
Definition evalValue (jexlNow : NowFn) (v : segval) (input : FlagEvaluationInput)
  : outcome jsval :=
  match v with
  | Rule rule => evalSync jexlNow (Some rule) input
  | Undefined => evalSync jexlNow None input
  | Member _ => Throw (TypeError "str.split is not a function")
  end.

Definition evaluateRolloutStep (jexlNow : NowFn) (step : RolloutStep)
    (segments : JsObject.t segval) (userId : option jsstring)
    (flagKey : jsstring) (input : FlagEvaluationInput) (now : Z) : outcome jsval :=
  let startTime := dateGetTime (step_start step) in
  if lt_number now startTime then Return (JBool false)
  else
    stepSegmentPassed ←
      match step_segment step with
      | Some segment =>
          if JsString.truthy segment then
            if truthy_segval (segmentRule segments segment) then
              evalValue jexlNow (segmentRule segments segment) input
            else Return (JBool false)
          else Return (JBool true)
      | None => Return (JBool true)
      end;
    let stepPercentagePassed :=
      match step_percentage step with
      | Some percentage => isUserInRollout userId flagKey percentage
      | None => true
      end in
    (* stepSegmentPassed && stepPercentagePassed *)
    Return (if ToBoolean stepSegmentPassed then JBool stepPercentagePassed
            else stepSegmentPassed).

Fixpoint evaluateRolloutSteps (jexlNow : NowFn) (rollouts : list RolloutStep)
    (segments : JsObject.t segval) (userId : option jsstring)
    (flagKey : jsstring) (input : FlagEvaluationInput) (now : Z) : outcome bool :=
  match rollouts with
  | [] => Return false
  | step :: rollouts' =>
      r ← evaluateRolloutStep jexlNow step segments userId flagKey input now;
      if ToBoolean r then Return true
      else evaluateRolloutSteps jexlNow rollouts' segments userId flagKey input now
  end.

(** A step fails, or passes, when the call returns a falsy, or a truthy,
    value. *)
Definition step_fails jexlNow segments userId flagKey input now (step : RolloutStep)
  : Prop :=
  ∃ v, evaluateRolloutStep jexlNow step segments userId flagKey input now = Return v
       ∧ ToBoolean v = false.

Definition step_passes jexlNow segments userId flagKey input now (step : RolloutStep)
  : Prop :=
  ∃ v, evaluateRolloutStep jexlNow step segments userId flagKey input now = Return v
       ∧ ToBoolean v = true.

(** The [switch (flag.type)] that ends [evaluateFlag]: the positive branch. *)
Definition firedResult (flag : FeatureFlag) (userId : option jsstring)
  : outcome FlagResult :=
  match flag_type flag with
  | TBoolean =>
      Return {| res_type := RBoolean; res_result := JBool true; res_isEval := true |}
  | TPayload payload =>
      Return {| res_type := RPayload; res_result := nullish payload JNull;
                res_isEval := true |}
  | TVariant variations =>
      let variantId := chooseVariant userId (flag_id flag) variations in
      let variant :=
        match variantId with
        | Some vid => List.find (λ v, bool_decide (var_id v = vid)) variations
        | None => None
        end in
      match variant with
      | Some v =>
          Return {| res_type := RVariant;
                    res_result := nullish (var_payload v) (JStr (var_id v));
                    res_isEval := true |}
      | None =>
          (* [variant?.payload] is [undefined], so [variant.id] is read *)
          Throw (TypeError "Cannot read properties of undefined (reading 'id')")
      end
  end.

(** [now] is [options.now], or the reading of [Date.now()] at entry when the
    caller passes none. *)
Definition evaluateFlag (input : FlagEvaluationInput) (flag : FeatureFlag)
    (segments : gmap jsstring jsstring) (now : Z) : outcome FlagResult :=
  let jexlNow := Fixed now in
  if negb (flag_enabled flag) then Return (getDefaultFlag flag)
  else
    let userId := input_id input in
    let flagSegments := flagSegmentsOf (flag_segments flag) segments in
    rulesPassed ←
      (if (length (flag_rules flag) =? 0)%nat then Return true
       else every (λ rule, evalSync jexlNow (Some rule) input) (flag_rules flag));
    if negb rulesPassed then Return (getDefaultFlag flag)
    else
      let hasSegments := (0 <? length (JsObject.values flagSegments))%nat in
      let hasRolloutes := (0 <? length (flag_rollouts flag))%nat in
      segmentsPassed ←
        (if negb hasRolloutes && hasSegments then
           some (λ rule, evalValue jexlNow rule input) (JsObject.values flagSegments)
         else Return true);
      if negb segmentsPassed then Return (getDefaultFlag flag)
      else if hasRolloutes then
        includedInRollout ←
          evaluateRolloutSteps jexlNow (flag_rollouts flag) flagSegments userId
            (flag_id flag) input now;
        if negb includedInRollout then Return (getDefaultFlag flag)
        else firedResult flag userId
      else
        let inRollout := isUserInRollout userId (flag_id flag) (flag_rollout flag) in
        if negb inRollout then Return (getDefaultFlag flag)
        else firedResult flag userId.

End Engine.

(** ** The definition store ([src/storage.ts]) *)

Module Storage.

Record AppData : Type := {
  flags : gmap jsstring FeatureFlag;
  segments : gmap jsstring jsstring
}.

(** The KV namespace: one JSON document per key.  Reading a document parses
    a fresh copy of what was written. *)
Abbreviation KVNamespace := (gmap jsstring AppData).

(** The fields [app] and [env] of an [AppKV]. *)
Record AppKV : Type := {
  app : jsstring;
  env : jsstring
}.

Record SyncInput : Type := {
  sourceEnv : option jsstring;
  targetEnv : jsstring;
  overwrite : bool
}.

(** [cacheKeys.all(env)] *)
Definition cacheKey (self : AppKV) (e : option jsstring) : jsstring :=
  js "v1:" ++ app self ++ js ":" ++ default (env self) e.

Definition emptyData : AppData := {| flags := ∅; segments := ∅ |}.

Definition getData (self : AppKV) (kv : KVNamespace) (e : option jsstring) : AppData :=
  default emptyData (kv !! cacheKey self e).

Definition saveData (self : AppKV) (kv : KVNamespace) (input : AppData)
    (e : option jsstring) : KVNamespace :=
  <[cacheKey self e := input]> kv.

(** The two loops of [#syncEnv] run over [Object.entries] of the source; each
    turn assigns one key of the target, so the order of the turns does not
    show in the result. *)
Definition syncEnv (self : AppKV) (kv : KVNamespace) (input : SyncInput)
  : KVNamespace * AppData :=
  let sourceData := getData self kv (Some (default (env self) (sourceEnv input))) in
  let targetData := getData self kv (Some (targetEnv input)) in
  let targetFlags :=
    map_fold
      (λ flagKey flag acc,
         let flag := if negb (overwrite input) then set_enabled false flag else flag in
         <[flagKey := flag]> acc)
      (flags targetData) (flags sourceData) in
  let targetSegments :=
    map_fold (λ segmentKey segment acc, <[segmentKey := segment]> acc)
      (segments targetData) (segments sourceData) in
  let targetData := {| flags := targetFlags; segments := targetSegments |} in
  (saveData self kv targetData (Some (targetEnv input)), targetData).

End Storage.

(** ** A host for the examples *)

(** An evaluator that knows a few literal expressions and rejects every other
    text, as a parser rejects a malformed expression. *)
Definition literalEval (jexlNow : NowFn) (expr : option jsstring)
    (input : FlagEvaluationInput) : outcome jsval :=
  match expr with
  | None => Throw (TypeError "expression is undefined")
  | Some e =>
      if decide (e = js "true") then Return (JBool true)
      else if decide (e = js "false") then Return (JBool false)
      else if decide (e = js "[]") then Return (JArr [])
      else if decide (e = js "0") then Return (JNum 0)
      else if decide (e = js "user") then Return (input_user input)
      else Throw (Error "parse error")
  end.

(** A date parser that knows two timestamps. *)
Definition tableDate (s : jsstring) : option Z :=
  if decide (s = js "2024-01-01T00:00:00.000Z") then Some 1704067200000
  else if decide (s = js "2025-01-01T00:00:00.000Z") then Some 1735689600000
  else None.

Definition anonymous : FlagEvaluationInput :=
  {| input_id := None; input_user := JUndefined; input_page := JNull;
     input_geo := JObj []; input_request := JObj [] |}.

Definition visitor (i : string) : FlagEvaluationInput :=
  set_input_id (Some (js i)) anonymous.

(** A boolean flag with the defaults of the schema, enabled. *)
Definition booleanFlag (key : string) : FeatureFlag :=
  {| flag_id := js key; flag_enabled := true; flag_rules := [];
     flag_segments := []; flag_rollout := 100; flag_rollouts := [];
     flag_isTrackable := false; flag_type := TBoolean |}.

Definition with_rules (rules : list jsstring) (flag : FeatureFlag) : FeatureFlag :=
  {| flag_id := flag_id flag; flag_enabled := flag_enabled flag;
     flag_rules := rules; flag_segments := flag_segments flag;
     flag_rollout := flag_rollout flag; flag_rollouts := flag_rollouts flag;
     flag_isTrackable := flag_isTrackable flag; flag_type := flag_type flag |}.

Definition with_rollouts (steps : list RolloutStep) (flag : FeatureFlag) : FeatureFlag :=
  {| flag_id := flag_id flag; flag_enabled := flag_enabled flag;
     flag_rules := flag_rules flag; flag_segments := flag_segments flag;
     flag_rollout := flag_rollout flag; flag_rollouts := steps;
     flag_isTrackable := flag_isTrackable flag; flag_type := flag_type flag |}.

Definition with_type (ty : FlagType) (flag : FeatureFlag) : FeatureFlag :=
  {| flag_id := flag_id flag; flag_enabled := flag_enabled flag;
     flag_rules := flag_rules flag; flag_segments := flag_segments flag;
     flag_rollout := flag_rollout flag; flag_rollouts := flag_rollouts flag;
     flag_isTrackable := flag_isTrackable flag; flag_type := ty |}.


Definition variation (key : string) (weight : Z) : Variation :=
  {| var_id := js key; var_weight := weight; var_payload := JUndefined |}.

Definition step (start : string) (percentage : option Z) (segment : option jsstring)
  : RolloutStep :=
  {| step_start := js start; step_percentage := percentage; step_segment := segment |}.

(** A flag whose second rule does not parse. *)
Definition malformedRuleFlag : FeatureFlag :=
  with_rules [js "true"; js "(("; js "true"] (booleanFlag "checkout").

(** A flag whose only rule is the empty array literal. *)
Definition emptyArrayRuleFlag : FeatureFlag :=
  with_rules [js "[]"] (booleanFlag "checkout").

Definition zeroRuleFlag : FeatureFlag :=
  with_rules [js "0"] (booleanFlag "checkout").

(** A variant flag whose weights sum to 20. *)
Definition underweightFlag : FeatureFlag :=
  with_type (TVariant [variation "control" 10; variation "test" 10])
    (booleanFlag "new-dashboard").

(** A step that sets neither a percentage nor a segment. *)
Definition bareStep : RolloutStep := step "2024-01-01T00:00:00.000Z" None None.

(** A step whose start is no timestamp. *)
Definition undatedStep : RolloutStep := step "soon" (Some 100) None.

(** A boolean flag at 50 percent. *)
Definition halfFlag : FeatureFlag := set_rollout 50 (booleanFlag "new-dashboard").

(** The string [é]: the one code unit U+00E9, the two octets C3 A9 in UTF-8. *)
Definition eAcute : jsstring := [233].

(** A step bound to a segment that no map holds. *)
Definition ghostStep : RolloutStep :=
  step "2024-01-01T00:00:00.000Z" None (Some (js "ghost")).

(** A step whose segment is the empty string. *)
Definition emptySegmentStep : RolloutStep :=
  step "2024-01-01T00:00:00.000Z" None (Some (js "")).

(** A flag released in two steps, its base percentage at 0. *)
Definition steppedFlag : FeatureFlag :=
  with_rollouts [step "2024-01-01T00:00:00.000Z" (Some 10) None;
                 step "2025-01-01T00:00:00.000Z" (Some 100) None]
    (set_rollout 0 (booleanFlag "checkout")).

(** The same flag, listing a segment whose rule does not parse. *)
Definition steppedSegmentFlag : FeatureFlag :=
  set_segments [js "beta"] steppedFlag.

Definition betaSegments : gmap jsstring jsstring := {[ js "beta" := js "((" ]}.

(** A flag that lists two segments and has no steps. *)
Definition segmentedFlag : FeatureFlag :=
  set_segments [js "premiumUsers"; js "betaUsers"] (booleanFlag "checkout").

Definition tenantSegments : gmap jsstring jsstring :=
  {[ js "premiumUsers" := js "false"; js "betaUsers" := js "true" ]}.

(** A store with a production and a staging document. *)
Definition sampleKV : gmap jsstring Storage.AppData :=
  {[ js "v1:default:production" :=
       {| Storage.flags := {[ js "checkout" := booleanFlag "checkout" ]};
          Storage.segments := {[ js "beta" := js "true" ]} |};
     js "v1:default:staging" :=
       {| Storage.flags := {[ js "legacy" := booleanFlag "legacy" ]};
          Storage.segments := {[ js "internal" := js "false" ]} |} ]}.

Definition sampleAppKV : Storage.AppKV :=
  {| Storage.app := js "default"; Storage.env := js "production" |}.

Definition toStaging (overwrite : bool) : Storage.SyncInput :=
  {| Storage.sourceEnv := None; Storage.targetEnv := js "staging";
     Storage.overwrite := overwrite |}.

(** ** Errors ([src/error.ts]) *)

Module Errors.

Inductive FlagglyErrorCode : Type :=
| TOO_MANY_REQUESTS
| NOT_FOUND
| INVALID_BODY
| INVALID_PARAMS
| PUT_FAILED
| DELETE_FAILED
| UPDATE_FAILED.

(** The message and the code of a [FlagglyError]. *)
Record FlagglyError : Type := {
  message : string;
  code : FlagglyErrorCode
}.

Definition statusCode (e : FlagglyError) : Z :=
  match code e with
  | NOT_FOUND => 404
  | TOO_MANY_REQUESTS => 429
  | INVALID_BODY | INVALID_PARAMS => 400
  | PUT_FAILED | DELETE_FAILED | UPDATE_FAILED => 500
  end.

(** What a promise is rejected with: a [FlagglyError] or anything else. *)
Inductive thrown : Type :=
| Flaggly (e : FlagglyError)
| Unknown (cause : string).

(** A settled promise. *)
Inductive settled (A : Type) : Type :=
| Fulfilled (a : A)
| Rejected (reason : thrown).

Arguments Fulfilled {A} a.
Arguments Rejected {A} reason.

(** The pair [[result, null]] or [[null, error]]. *)
Inductive tuple (A : Type) : Type :=
| Ok (result : A)
| Err (error : FlagglyError).

Arguments Ok {A} result.
Arguments Err {A} error.

Definition tryPromise {A} (promise : settled A) (error : FlagglyError) : tuple A :=
  match promise with
  | Fulfilled result => Ok result
  | Rejected (Flaggly unknownError) => Err unknownError
  | Rejected (Unknown _) => Err {| message := message error; code := code error |}
  end.

End Errors.

(** ** The mutators of the store ([src/storage.ts]) *)

Module Store.

Import Storage Errors.

(** A mutator takes the namespace and returns the namespace it leaves
    behind, with its result. *)

(** [o[k] = v] on a map of a document.  Under the name [__proto__], unless
    the map has an own property of that name, the assignment goes to the
    setter of the prototype and creates no property: the JSON of the
    document is as before. *)
Definition assign {V} (o : gmap jsstring V) (k : jsstring) (v : V) : gmap jsstring V :=
  if bool_decide (k = js "__proto__") && negb (bool_decide (is_Some (o !! k)))
  then o
  else <[k := v]> o.

(** [#checkSegments] *)
Definition checkSegments (input : list jsstring) (segments : gmap jsstring jsstring)
  : settled unit :=
  if (length input =? 0)%nat then Fulfilled ()
  else
    let isValid := forallb (λ key, bool_decide (is_Some (segments !! key))) input in
    if negb isValid then
      Rejected (Flaggly {| message := "Add the segment before using it";
                           code := INVALID_BODY |})
    else Fulfilled ().

(** [#checkFlag] *)
Definition checkFlag (id : jsstring) (data : AppData) : settled unit :=
  if negb (bool_decide (is_Some (flags data !! id))) then
    Rejected (Flaggly {| message := "Flag not found"; code := NOT_FOUND |})
  else Fulfilled ().

Module Private.

Definition putFlag (self : AppKV) (kv : gmap jsstring AppData) (flag : FeatureFlag)
  : gmap jsstring AppData * settled AppData :=
  let data := getData self kv None in
  match checkSegments (flag_segments flag) (segments data) with
  | Rejected reason => (kv, Rejected reason)
  | Fulfilled _ =>
      let data := {| flags := assign (flags data) (flag_id flag) flag;
                     segments := segments data |} in
      (saveData self kv data None, Fulfilled data)
  end.

Definition deleteFlag (self : AppKV) (kv : gmap jsstring AppData) (id : jsstring)
  : gmap jsstring AppData * settled AppData :=
  let data := getData self kv None in
  match checkFlag id data with
  | Rejected reason => (kv, Rejected reason)
  | Fulfilled _ =>
      let data := {| flags := delete id (flags data); segments := segments data |} in
      (saveData self kv data None, Fulfilled data)
  end.

Definition putSegment (self : AppKV) (kv : gmap jsstring AppData)
    (id rule : jsstring) : gmap jsstring AppData * settled AppData :=
  let data := getData self kv None in
  let data := {| flags := flags data; segments := assign (segments data) id rule |} in
  (saveData self kv data None, Fulfilled data).

(** The body of the loop of [#deleteSegment] over the flags. *)
Definition stripSegment (id : jsstring) (flag : FeatureFlag) : FeatureFlag :=
  let flagSegments := flag_segments flag in
  let hasDeletedSegment :=
    (0 <? length flagSegments)%nat && existsb (λ seg, bool_decide (seg = id)) flagSegments in
  if hasDeletedSegment then
    set_segments (List.filter (λ seg, negb (bool_decide (seg = id))) flagSegments) flag
  else flag.

Definition deleteSegment (self : AppKV) (kv : gmap jsstring AppData) (id : jsstring)
  : gmap jsstring AppData * settled AppData :=
  let data := getData self kv None in
  if negb (bool_decide (is_Some (segments data !! id))) then
    (kv, Rejected (Flaggly {| message := "Cannot delete non existing segment";
                              code := NOT_FOUND |}))
  else
    let data := {| flags := stripSegment id <$> flags data;
                   segments := delete id (segments data) |} in
    (saveData self kv data None, Fulfilled data).

(** [targetEnv.segments[s] = sourceEnv.segments[s]]; a property that is
    given the value [undefined] is a property that the JSON of the document
    does not have. *)
Definition copySegment (sourceSegments : gmap jsstring jsstring)
    (targetSegments : gmap jsstring jsstring) (sourceSegment : jsstring)
  : gmap jsstring jsstring :=
  match sourceSegments !! sourceSegment with
  | Some rule => <[sourceSegment := rule]> targetSegments
  | None => delete sourceSegment targetSegments
  end.

Definition syncFlag (self : AppKV) (kv : gmap jsstring AppData) (input : SyncInput)
    (id : jsstring) : gmap jsstring AppData * settled AppData :=
  let sourceData := getData self kv (Some (default (env self) (sourceEnv input))) in
  let targetData := getData self kv (Some (targetEnv input)) in
  let flagKey := id in
  match checkFlag flagKey sourceData, flags sourceData !! flagKey with
  | Rejected reason, _ => (kv, Rejected reason)
  | Fulfilled _, None =>
      (* not reached: [#checkFlag] has found the flag *)
      (kv, Rejected (Unknown "flag is undefined"))
  | Fulfilled _, Some flag =>
      let flag := if negb (overwrite input) then set_enabled false flag else flag in
      let targetFlags := <[flagKey := flag]> (flags targetData) in
      let flagSegments := flag_segments flag in
      let targetSegments :=
        fold_left (copySegment (segments sourceData)) flagSegments
          (segments targetData) in
      let targetData := {| flags := targetFlags; segments := targetSegments |} in
      (saveData self kv targetData (Some (targetEnv input)), Fulfilled targetData)
  end.

End Private.

Definition settle {A} (r : gmap jsstring AppData * settled A) (error : FlagglyError)
  : gmap jsstring AppData * tuple A :=
  (r.1, tryPromise r.2 error).

Definition putFlag (self : AppKV) (kv : gmap jsstring AppData) (flag : FeatureFlag)
  : gmap jsstring AppData * tuple AppData :=
  settle (Private.putFlag self kv flag)
    {| message := "Failed to put flag"; code := PUT_FAILED |}.

Definition deleteFlag (self : AppKV) (kv : gmap jsstring AppData) (id : jsstring)
  : gmap jsstring AppData * tuple AppData :=
  settle (Private.deleteFlag self kv id)
    {| message := "Failed to delete flag"; code := DELETE_FAILED |}.

Definition putSegment (self : AppKV) (kv : gmap jsstring AppData) (id rule : jsstring)
  : gmap jsstring AppData * tuple AppData :=
  settle (Private.putSegment self kv id rule)
    {| message := "Failed to save segment"; code := PUT_FAILED |}.

Definition deleteSegment (self : AppKV) (kv : gmap jsstring AppData) (id : jsstring)
  : gmap jsstring AppData * tuple AppData :=
  settle (Private.deleteSegment self kv id)
    {| message := "Failed to delete segment"; code := DELETE_FAILED |}.

Definition syncFlag (self : AppKV) (kv : gmap jsstring AppData) (input : SyncInput)
    (id : jsstring) : gmap jsstring AppData * tuple AppData :=
  settle (Private.syncFlag self kv input id)
    {| message := "Failed to sync flags segment"; code := UPDATE_FAILED |}.

(** Invariant I1 of a document: every segment that a flag lists is a segment
    of the document. *)
Definition closed (data : AppData) : Prop :=
  ∀ flagKey flag, flags data !! flagKey = Some flag →
    ∀ seg, seg ∈ flag_segments flag → is_Some (segments data !! seg).

End Store.

(** ** The evaluation routes ([src/routes/api.ts]) *)

(** The [{ type, result }] that a route answers for a flag. *)
Record FlagAnswer : Type := {
  ans_type : ResultType;
  ans_result : jsval
}.

(** [flag.type] *)
Definition typeOf (flag : FeatureFlag) : ResultType :=
  match flag_type flag with
  | TBoolean => RBoolean
  | TPayload _ => RPayload
  | TVariant _ => RVariant
  end.

Section Routes.

Variable evalSync : NowFn → option jsstring → FlagEvaluationInput → outcome jsval.
Variable dateGetTime : jsstring → option Z.

(** The reading of [Date.now()] at the n-th call of [evaluateFlag]: the routes
    pass no [now]. *)
Variable dateNow : nat → Z.

(** The loop of [POST /eval] over [Object.entries(data.flags)], from the
    n-th call on; [flagResult] is the object built so far.  The analytics
    points that the loop also collects do not reach the response. *)
Fixpoint evalEntries (n : nat) (entries : list (jsstring * FeatureFlag))
    (segments : gmap jsstring jsstring) (input : FlagEvaluationInput)
    (flagResult : JsObject.t FlagAnswer) : outcome (JsObject.t FlagAnswer) :=
  match entries with
  | [] => Return flagResult
  | (flagKey, flag) :: entries' =>
      r ← evaluateFlag evalSync dateGetTime input flag segments (dateNow n);
      evalEntries (S n) entries' segments input
        (JsObject.assign flagResult flagKey
           {| ans_type := typeOf flag; ans_result := res_result r |})
  end.

End Routes.

(** ** The origin of the CORS middleware ([src/index.ts]) *)

(** [s.split(",")] for the separator [sep]. *)
Fixpoint split (sep : Z) (s : jsstring) : list jsstring :=
  match s with
  | [] => [[]]
  | c :: s' =>
      if c =? sep then [] :: split sep s'
      else
        match split sep s' with
        | piece :: pieces => (c :: piece) :: pieces
        | [] => [[c]]
        end
  end.

(** [pieces.join(",")] *)
Fixpoint join (sep : Z) (pieces : list jsstring) : jsstring :=
  match pieces with
  | [] => []
  | [piece] => piece
  | piece :: pieces' => piece ++ sep :: join sep pieces'
  end.

(** The [origin] callback: [ORIGIN] is the configured list, [incomingOrigin]
    the [Origin] header of the request. *)
Definition corsOrigin (ORIGIN : jsstring) (incomingOrigin : option jsstring)
  : option jsstring :=
  let allowedOrigins := split 44 ORIGIN in
  match incomingOrigin with
  | None => None
  | Some incoming =>
      if negb (JsString.truthy incoming) then None
      else if (length allowedOrigins =? 1)%nat then head allowedOrigins
      else List.find (λ origin, bool_decide (origin = incoming)) allowedOrigins
  end.

(** ** More inputs for the examples *)

(** A variant flag whose weights sum to 100. *)
Definition fullVariantFlag : FeatureFlag :=
  with_type (TVariant [variation "control" 50; variation "test" 50])
    (booleanFlag "new-dashboard").

(** A flag whose only step names a segment that the flag does not list. *)
Definition unlistedStepFlag : FeatureFlag :=
  with_rollouts [ghostStep] (booleanFlag "checkout").

Definition ghostSegments : gmap jsstring jsstring := {[ js "ghost" := js "true" ]}.

Definition stagingAppKV : Storage.AppKV :=
  {| Storage.app := js "default"; Storage.env := js "staging" |}.

Definition productionData : Storage.AppData :=
  {| Storage.flags := {[ js "checkout" := booleanFlag "checkout" ]};
     Storage.segments := {[ js "beta" := js "true" ]} |}.

(** A flag that lists the segment [beta]. *)
Definition betaFlag : FeatureFlag := set_segments [js "beta"] (booleanFlag "beta-only").

(** A store whose production document has a flag that lists [beta]. *)
Definition betaKV : gmap jsstring Storage.AppData :=
  {[ js "v1:default:production" :=
       {| Storage.flags := {[ js "beta-only" := betaFlag ]};
          Storage.segments := {[ js "beta" := js "true" ]} |} ]}.

(** The clock of the examples. *)
Definition fixedClock (n : nat) : Z := 1704067200000.

(** A flag that lists the segment [__proto__], and a tenant whose document
    has a segment of that name, as a parsed JSON text can. *)
Definition protoSegmentFlag : FeatureFlag :=
  set_segments [js "__proto__"] (booleanFlag "checkout").

Definition protoTenant : gmap jsstring jsstring := {[ js "__proto__" := js "false" ]}.



(** * Properties *)

(** ** Hash and bucket *)

Section Hash.

Lemma ToInt32_congr z : ∃ k, Int32.ToInt32 z = z + k * 2 ^ 32.
Proof.
  unfold Int32.ToInt32.
  exists (- ((z + 2 ^ 31) / 2 ^ 32)).
  pose proof (Z.div_mod (z + 2 ^ 31) (2 ^ 32)) as E.
  lia.
Qed.

Lemma ToInt32_range z : - 2 ^ 31 ≤ Int32.ToInt32 z < 2 ^ 31.
Proof.
  unfold Int32.ToInt32.
  pose proof (Z.mod_pos_bound (z + 2 ^ 31) (2 ^ 32)). lia.
Qed.

Lemma ToUint32_ToInt32 z : Int32.ToUint32 (Int32.ToInt32 z) = Int32.ToUint32 z.
Proof.
  destruct (ToInt32_congr z) as [k ->].
  unfold Int32.ToUint32. apply Z_mod_plus_full.
Qed.

Lemma lxor_mod_pow2 a b n :
  0 ≤ n → Z.lxor a b mod 2 ^ n = Z.lxor (a mod 2 ^ n) (b mod 2 ^ n).
Proof.
  intros Hn. apply Z.bits_inj'. intros i Hi.
  rewrite Z.lxor_spec.
  destruct (Z.lt_ge_cases i n) as [Hlt | Hge].
  - rewrite !Z.mod_pow2_bits_low by lia. apply Z.lxor_spec.
  - rewrite !Z.mod_pow2_bits_high by lia. reflexivity.
Qed.

Lemma ToUint32_xor a b :
  Int32.ToUint32 (Int32.xor a b) = Z.lxor (Int32.ToUint32 a) (Int32.ToUint32 b).
Proof.
  unfold Int32.xor. rewrite ToUint32_ToInt32.
  unfold Int32.ToUint32. rewrite lxor_mod_pow2 by lia.
  fold (Int32.ToUint32 (Int32.ToInt32 a)). fold (Int32.ToUint32 (Int32.ToInt32 b)).
  by rewrite !ToUint32_ToInt32.
Qed.

Lemma shl_congr a n : 0 ≤ n → ∃ k, Int32.shl a n = a * 2 ^ n + k * 2 ^ 32.
Proof.
  intros Hn. unfold Int32.shl.
  destruct (ToInt32_congr a) as [k1 E1].
  destruct (ToInt32_congr (Z.shiftl (Int32.ToInt32 a) n)) as [k2 E2].
  rewrite E2, Z.shiftl_mul_pow2, E1 by lia.
  exists (k1 * 2 ^ n + k2). ring.
Qed.

(** Every value the loop holds is far below 2^53: the additions of doubles
    are exact. *)
Lemma hashStep_exact hval c : - 2 ^ 53 < hashStep hval c < 2 ^ 53.
Proof.
  unfold hashStep, Int32.shl, Int32.xor.
  repeat match goal with
         | |- context [Int32.ToInt32 ?z] =>
             pose proof (ToInt32_range z); generalize dependent (Int32.ToInt32 z); intros
         end.
  lia.
Qed.

Lemma ToUint32_hashStep hval c :
  Int32.ToUint32 (hashStep hval c)
  = (Z.lxor (Int32.ToUint32 hval) c * 16777619) mod 2 ^ 32.
Proof.
  unfold hashStep. set (x := Int32.xor hval c).
  destruct (shl_congr x 1) as [k1 ->]; [lia |].
  destruct (shl_congr x 4) as [k4 ->]; [lia |].
  destruct (shl_congr x 7) as [k7 ->]; [lia |].
  destruct (shl_congr x 8) as [k8 ->]; [lia |].
  destruct (shl_congr x 24) as [k24 ->]; [lia |].
  replace (x + (x * 2 ^ 1 + k1 * 2 ^ 32 + (x * 2 ^ 4 + k4 * 2 ^ 32)
              + (x * 2 ^ 7 + k7 * 2 ^ 32) + (x * 2 ^ 8 + k8 * 2 ^ 32)
              + (x * 2 ^ 24 + k24 * 2 ^ 32)))
    with (x * 16777619 + (k1 + k4 + k7 + k8 + k24) * 2 ^ 32) by ring.
  unfold Int32.ToUint32 at 1. rewrite Z_mod_plus_full.
  assert (x mod 2 ^ 32 = Z.lxor (Int32.ToUint32 hval) c mod 2 ^ 32) as E.
  { fold (Int32.ToUint32 x). subst x. rewrite ToUint32_xor.
    rewrite (lxor_mod_pow2 _ c) by lia.
    unfold Int32.ToUint32. by rewrite Z.mod_mod by lia. }
  rewrite Z.mul_mod, E, <- Z.mul_mod by lia. reflexivity.
Qed.

Lemma fold_hashStep str hval :
  Int32.ToUint32 (fold_left hashStep str hval)
  = fold_left (λ h c, (Z.lxor h c * 16777619) mod 2 ^ 32) str (Int32.ToUint32 hval).
Proof.
  revert hval. induction str as [| c str IH]; intros hval; simpl; [done |].
  rewrite IH, ToUint32_hashStep. reflexivity.
Qed.

(** [hashFnv32a] is FNV-1a over the code units of the string. *)
Lemma hashFnv32a_fnv1a32 str : hashFnv32a str = fnv1a32 str.
Proof. unfold hashFnv32a, Int32.ushr0, fnv1a32. by rewrite fold_hashStep. Qed.

Lemma hashFnv32a_range str : 0 ≤ hashFnv32a str < 2 ^ 32.
Proof. unfold hashFnv32a, Int32.ushr0, Int32.ToUint32. apply Z.mod_pos_bound. lia. Qed.

Lemma userPercentageHash_range userId flagKey :
  1 ≤ userPercentageHash userId flagKey ≤ 100.
Proof.
  unfold userPercentageHash.
  pose proof (hashFnv32a_range (JsString.interpolate userId ++ js ":" ++ flagKey)) as H.
  rewrite Z.rem_mod_nonneg by lia.
  pose proof (Z.mod_pos_bound
                (hashFnv32a (JsString.interpolate userId ++ js ":" ++ flagKey)) 100).
  lia.
Qed.

Lemma utf8_ascii s : JsString.is_ascii s → JsString.utf8 s = s.
Proof.
  induction 1 as [| c s Hc _ IH]; simpl; [done |].
  unfold JsString.is_high_surrogate, JsString.is_low_surrogate,
    JsString.utf8_of_code_point.
  replace (55296 <=? c) with false by lia.
  replace (56320 <=? c) with false by lia.
  replace (c <? 128) with true by lia.
  simpl. by rewrite IH.
Qed.

(** C4, as amended.  The bucket is FNV-1a, 32 bits, unsigned, over the UTF-16
    code units of [identity + ":" + flagKey], each code unit folded in whole,
    modulo 100, plus 1; it lies in 1..100; for ASCII strings the code units
    are the UTF-8 octets, so the bucket is the one of the specification.  The
    buckets of [user-123] and [user-456] for [new-dashboard] are 95 and 34:
    a boolean flag at 50 percent fires for [user-456] and not for
    [user-123]. *)
Theorem bucket_fnv1a_code_units identity flagKey :
  userPercentageHash (Some identity) flagKey
  = fnv1a32 (identity ++ js ":" ++ flagKey) mod 100 + 1
  ∧ 1 ≤ userPercentageHash (Some identity) flagKey ≤ 100
  ∧ (JsString.is_ascii identity → JsString.is_ascii flagKey →
     userPercentageHash (Some identity) flagKey = bucket_spec identity flagKey)
  ∧ userPercentageHash (Some (js "user-123")) (js "new-dashboard") = 95
  ∧ userPercentageHash (Some (js "user-456")) (js "new-dashboard") = 34
  ∧ (∀ evalSync dateGetTime input segments now,
       input_id input = Some (js "user-456") →
       evaluateFlag evalSync dateGetTime input halfFlag segments now
       = Return {| res_type := RBoolean; res_result := JBool true;
                   res_isEval := true |})
  ∧ (∀ evalSync dateGetTime input segments now,
       input_id input = Some (js "user-123") →
       evaluateFlag evalSync dateGetTime input halfFlag segments now
       = Return {| res_type := RBoolean; res_result := JBool false;
                   res_isEval := false |}).
Proof.
  assert (userPercentageHash (Some identity) flagKey
          = fnv1a32 (identity ++ js ":" ++ flagKey) mod 100 + 1) as E.
  { unfold userPercentageHash.
    pose proof (hashFnv32a_range (JsString.interpolate (Some identity) ++ js ":" ++ flagKey)).
    rewrite Z.rem_mod_nonneg by lia. by rewrite hashFnv32a_fnv1a32. }
  split; [exact E |]. split; [apply userPercentageHash_range |].
  split; [| split; [| split; [| split]]].
  - intros Hi Hf. rewrite E. unfold bucket_spec. rewrite utf8_ascii; [done |].
    apply Forall_app. split; [done |]. apply Forall_cons. split; [done | exact Hf].
  - vm_compute. reflexivity.
  - vm_compute. reflexivity.
  - intros ev date input segments now Hid.
    unfold evaluateFlag. rewrite Hid. vm_compute. reflexivity.
  - intros ev date input segments now Hid.
    unfold evaluateFlag. rewrite Hid. vm_compute. reflexivity.
Qed.

End Hash.

(** ** Calls that may throw *)

Section Outcome.

Context {A : Type}.
Implicit Types (f : A → outcome jsval) (xs ys : list A).

Lemma every_app f xs ys :
  every f (xs ++ ys)
  = every f xs ≫= λ b : bool, if b then every f ys else Return false.
Proof.
  induction xs as [| x xs IH]; simpl; [done |].
  destruct (f x) as [v | e]; simpl; [| done].
  destruct (ToBoolean v); [apply IH | done].
Qed.

Lemma some_app f xs ys :
  some f (xs ++ ys)
  = some f xs ≫= λ b : bool, if b then Return true else some f ys.
Proof.
  induction xs as [| x xs IH]; simpl; [done |].
  destruct (f x) as [v | e]; simpl; [| done].
  destruct (ToBoolean v); [done | apply IH].
Qed.

Lemma every_ext f g xs : (∀ x, f x = g x) → every f xs = every g xs.
Proof.
  intros E. induction xs as [| x xs IH]; simpl; [done |].
  rewrite E. destruct (g x) as [v | e]; simpl; [| done].
  destruct (ToBoolean v); [apply IH | done].
Qed.

Lemma some_ext f g xs : (∀ x, f x = g x) → some f xs = some g xs.
Proof.
  intros E. induction xs as [| x xs IH]; simpl; [done |].
  rewrite E. destruct (g x) as [v | e]; simpl; [| done].
  destruct (ToBoolean v); [done | apply IH].
Qed.

(** [every] over callbacks that all return. *)
Lemma every_values f xs vs :
  Forall2 (λ x v, f x = Return v) xs vs →
  every f xs = Return (forallb ToBoolean vs).
Proof.
  induction 1 as [| x v xs vs E _ IH]; simpl; [done |].
  rewrite E. simpl. destruct (ToBoolean v); [apply IH | done].
Qed.

(** [some] returns [true] only by a callback that returned a truthy value. *)
Lemma some_true f xs :
  some f xs = Return true → ∃ x v, x ∈ xs ∧ f x = Return v ∧ ToBoolean v = true.
Proof.
  induction xs as [| x xs IH]; simpl; [done |].
  destruct (f x) as [v | e] eqn:E; simpl; [| done].
  destruct (ToBoolean v) eqn:T.
  - intros _. exists x, v. split; [left | done].
  - intros H. destruct (IH H) as (y & w & Hy & Hw). exists y, w. split; [by right | done].
Qed.

Lemma rules_check f xs :
  (if (length xs =? 0)%nat then Return true else every f xs) = every f xs.
Proof. by destruct xs. Qed.

End Outcome.

(** ** Truthiness *)

Lemma ToBoolean_false v :
  ToBoolean v = false
  ↔ v = JBool false ∨ v = JNull ∨ v = JUndefined ∨ v = JNum 0 ∨ v = JNaN ∨ v = JStr [].
Proof.
  split.
  - destruct v as [| | [] | n | | [| c s] | |]; simpl; try done; auto 7.
    intros H. apply negb_false_iff, Z.eqb_eq in H. subst. auto 7.
  - intros [-> | [-> | [-> | [-> | [-> | ->]]]]]; reflexivity.
Qed.

(** ** Objects *)

Section Objects.

Context {A : Type}.
Implicit Types (o : JsObject.t A) (k : jsstring) (v : A).

Lemma get_set o k v k' :
  JsObject.get (JsObject.set o k v) k'
  = if decide (k = k') then Some v else JsObject.get o k'.
Proof.
  induction o as [| [k0 v0] o IH]; simpl.
  - repeat case_decide; congruence.
  - destruct (decide (k0 = k)) as [-> | Hne]; simpl.
    + repeat case_decide; congruence.
    + rewrite IH. repeat case_decide; congruence.
Qed.

Lemma elem_of_set o k v x :
  x ∈ JsObject.set o k v → x = (k, v) ∨ x ∈ o.
Proof.
  induction o as [| [k0 v0] o IH]; simpl.
  - rewrite list_elem_of_singleton. auto.
  - destruct (decide (k0 = k)); rewrite !elem_of_cons; intros [-> | H]; auto.
    destruct (IH H); auto.
Qed.

Lemma set_not_nil o k v : JsObject.set o k v ≠ [].
Proof. destruct o as [| [k0 v0] o]; simpl; [done |]. by case_decide. Qed.

Lemma length_indexed_named o :
  (length (JsObject.indexed o) + length (JsObject.named o) = length o)%nat.
Proof.
  unfold JsObject.indexed, JsObject.named.
  induction o as [| [k0 v0] o IH]; [done |].
  rewrite filter_cons. simpl.
  destruct (JsObject.array_index k0); simpl; rewrite <- IH; unfold omap; lia.
Qed.

Lemma length_values o : length (JsObject.values o) = length o.
Proof.
  unfold JsObject.values.
  rewrite length_app, !length_fmap, merge_sort_Permutation.
  apply length_indexed_named.
Qed.

Lemma elem_of_values o v : v ∈ JsObject.values o → ∃ k, (k, v) ∈ o.
Proof.
  unfold JsObject.values. rewrite elem_of_app, !list_elem_of_fmap.
  intros [([i w] & -> & Hin) | ([k w] & -> & Hin)]; simpl.
  - rewrite merge_sort_Permutation in Hin.
    apply list_elem_of_omap in Hin as ([k w'] & Hin & E). simpl in E.
    destruct (JsObject.array_index k); simpl in E; [| done].
    injection E as _ <-. by exists k.
  - apply list_elem_of_filter in Hin as [_ Hin]. by exists k.
Qed.

End Objects.

Section Assignment.

Context {A : Type}.
Implicit Types (o : JsObject.t A) (k : jsstring) (v : A).

Lemma assign_proto o v :
  JsObject.get o (js "__proto__") = None →
  JsObject.assign o (js "__proto__") v = o.
Proof.
  intros H. unfold JsObject.assign.
  rewrite bool_decide_true by done.
  rewrite H, bool_decide_false by (by intros [? ?]). done.
Qed.

Lemma assign_named o k v : k ≠ js "__proto__" → JsObject.assign o k v = JsObject.set o k v.
Proof. intros H. unfold JsObject.assign. by rewrite bool_decide_false. Qed.

Lemma get_assign_named o k v k' :
  k ≠ js "__proto__" →
  JsObject.get (JsObject.assign o k v) k'
  = if decide (k = k') then Some v else JsObject.get o k'.
Proof. intros H. rewrite assign_named by done. apply get_set. Qed.

Lemma get_assign_ne o k v k' :
  k ≠ k' → JsObject.get (JsObject.assign o k v) k' = JsObject.get o k'.
Proof.
  intros H. unfold JsObject.assign.
  destruct (_ && _); [done |]. rewrite get_set. by rewrite decide_False.
Qed.

Lemma get_assign_proto o k v :
  JsObject.get o (js "__proto__") = None →
  JsObject.get (JsObject.assign o k v) (js "__proto__") = None.
Proof.
  intros H. destruct (decide (k = js "__proto__")) as [-> | Hk].
  - by rewrite assign_proto.
  - by rewrite get_assign_ne.
Qed.

End Assignment.

(** The object that the decision builds from [flag.segments]. *)
Section FlagSegments.

Implicit Types (keys : list jsstring) (tenant : gmap jsstring jsstring).

Abbreviation assign_from tenant :=
  (λ (acc : JsObject.t segval) key, JsObject.assign acc key (tenantRule tenant key)).

Lemma get_fold_assign keys tenant (o : JsObject.t segval) k :
  JsObject.get o (js "__proto__") = None →
  JsObject.get (fold_left (assign_from tenant) keys o) k
  = if decide (k ∈ keys ∧ k ≠ js "__proto__") then Some (tenantRule tenant k)
    else JsObject.get o k.
Proof.
  revert o. induction keys as [| key keys IH]; intros o Ho; cbn [fold_left].
  - destruct (decide _) as [[H _] | H]; [by apply elem_of_nil in H | done].
  - destruct (decide (key = js "__proto__")) as [-> | Hkey].
    + rewrite assign_proto, IH by done.
      destruct (decide (k ∈ keys ∧ k ≠ js "__proto__")) as [[H1 H2] | H];
        destruct (decide (k ∈ js "__proto__" :: keys ∧ k ≠ js "__proto__"))
          as [[H3 H4] | H'];
        try done.
      * exfalso. apply H'. split; [by right | done].
      * exfalso. apply H. split; [| done].
        apply elem_of_cons in H3 as [-> | H3]; done.
    + rewrite IH by (rewrite get_assign_named by done; by rewrite decide_False).
      rewrite get_assign_named by done.
      destruct (decide (k ∈ keys ∧ k ≠ js "__proto__")) as [[H1 H2] | H];
        destruct (decide (k ∈ key :: keys ∧ k ≠ js "__proto__")) as [[H3 H4] | H'];
        try done.
      * exfalso. apply H'. split; [by right | done].
      * apply elem_of_cons in H3 as [-> | H3]; [by rewrite decide_True |].
        exfalso. by apply H.
      * destruct (decide (key = k)) as [-> | Hne]; [| done].
        exfalso. apply H'. split; [left | done].
Qed.

Lemma get_flagSegmentsOf keys tenant k :
  JsObject.get (flagSegmentsOf keys tenant) k
  = if decide (k ∈ keys ∧ k ≠ js "__proto__") then Some (tenantRule tenant k)
    else None.
Proof. unfold flagSegmentsOf. by rewrite get_fold_assign. Qed.

Lemma segmentRule_flagSegmentsOf keys tenant k :
  segmentRule (flagSegmentsOf keys tenant) k
  = if decide (k ∈ keys ∧ k ≠ js "__proto__") then tenantRule tenant k
    else if bool_decide (k ∈ JsObject.prototypeNames) then Member k else Undefined.
Proof.
  unfold segmentRule. rewrite get_flagSegmentsOf. by destruct (decide _).
Qed.

Lemma elem_of_fold_assign keys tenant (o : JsObject.t segval) x :
  JsObject.get o (js "__proto__") = None →
  x ∈ fold_left (assign_from tenant) keys o →
  x ∈ o ∨ (x.1 ∈ keys ∧ x.1 ≠ js "__proto__" ∧ x.2 = tenantRule tenant x.1).
Proof.
  revert o. induction keys as [| key keys IH]; intros o Ho; cbn [fold_left]; [auto |].
  destruct (decide (key = js "__proto__")) as [-> | Hkey].
  - rewrite assign_proto by done. intros Hin.
    destruct (IH _ Ho Hin) as [? | (Hk & Hp & Hv)]; [by left |].
    right. split; [by right | done].
  - rewrite assign_named by done. intros Hin.
    destruct (IH (JsObject.set o key (tenantRule tenant key))) with (2 := Hin)
      as [Hset | (Hk & Hp & Hv)].
    + rewrite get_set. by rewrite decide_False.
    + destruct (elem_of_set _ _ _ _ Hset) as [-> | Ho']; [| by left].
      right. simpl. split; [left | done].
    + right. split; [by right | done].
Qed.

Lemma elem_of_flagSegmentsOf keys tenant k v :
  (k, v) ∈ flagSegmentsOf keys tenant →
  k ∈ keys ∧ k ≠ js "__proto__" ∧ v = tenantRule tenant k.
Proof.
  intros Hin. unfold flagSegmentsOf in Hin.
  apply elem_of_fold_assign in Hin as [Hnil | H]; [| done | done].
  by apply elem_of_nil in Hnil.
Qed.

Lemma length_fold_assign keys tenant (o : JsObject.t segval) :
  JsObject.get o (js "__proto__") = None →
  (0 <? length (fold_left (assign_from tenant) keys o))%nat
  = (0 <? length o)%nat || existsb (λ k, negb (bool_decide (k = js "__proto__"))) keys.
Proof.
  revert o. induction keys as [| key keys IH]; intros o Ho; cbn [fold_left existsb].
  - by rewrite orb_false_r.
  - destruct (decide (key = js "__proto__")) as [-> | Hkey].
    + rewrite assign_proto, IH by done. by rewrite bool_decide_true.
    + rewrite assign_named, IH by (done || (rewrite get_set; by rewrite decide_False)).
      rewrite bool_decide_false by done. simpl.
      pose proof (set_not_nil o key (tenantRule tenant key)).
      destruct (JsObject.set o key _); [done |]. simpl. by rewrite orb_true_r.
Qed.

(** [hasSegments] holds exactly when the flag lists a segment other than
    [__proto__]. *)
Lemma hasSegments_iff keys tenant :
  (0 <? length (JsObject.values (flagSegmentsOf keys tenant)))%nat
  = existsb (λ k, negb (bool_decide (k = js "__proto__"))) keys.
Proof. rewrite length_values. unfold flagSegmentsOf. by rewrite length_fold_assign. Qed.

(** A listed segment whose evaluation returns is a rule of the tenant, or
    none of its segments: the evaluator was given [segments[k]]. *)
Lemma evalValue_tenantRule
    (evalSync : NowFn → option jsstring → FlagEvaluationInput → outcome jsval)
    (jexlNow : NowFn) (tenant : gmap jsstring jsstring) (k : jsstring)
    (input : FlagEvaluationInput) (v : jsval) :
  evalValue evalSync jexlNow (tenantRule tenant k) input = Return v →
  evalSync jexlNow (tenant !! k) input = Return v.
Proof.
  unfold tenantRule. destruct (tenant !! k); [done |].
  by destruct (bool_decide _).
Qed.

Lemma tenantRule_named (tenant : gmap jsstring jsstring) (k : jsstring) :
  k ∉ JsObject.prototypeNames →
  tenantRule tenant k = match tenant !! k with Some rule => Rule rule | None => Undefined end.
Proof.
  intros H. unfold tenantRule. destruct (tenant !! k); [done |].
  by rewrite bool_decide_false.
Qed.

End FlagSegments.

(** ** The decision: the enabled gate and the rules *)

Section Decision.

Variable evalSync : NowFn → option jsstring → FlagEvaluationInput → outcome jsval.
Variable dateGetTime : jsstring → option Z.

Abbreviation decide_flag := (evaluateFlag evalSync dateGetTime).
Abbreviation rule_of input now := (λ rule : jsstring, evalSync (Fixed now) (Some rule) input).
Abbreviation run_step := (evaluateRolloutStep evalSync dateGetTime).
Abbreviation run_steps := (evaluateRolloutSteps evalSync dateGetTime).

Lemma evaluateFlag_disabled input flag segments now :
  flag_enabled flag = false →
  decide_flag input flag segments now = Return (getDefaultFlag flag).
Proof. intros E. unfold evaluateFlag. by rewrite E. Qed.

Lemma evaluateFlag_rules_false input flag segments now :
  every (rule_of input now) (flag_rules flag) = Return false →
  decide_flag input flag segments now = Return (getDefaultFlag flag).
Proof.
  intros E. unfold evaluateFlag. destruct (flag_enabled flag); simpl; [| done].
  rewrite rules_check, E. reflexivity.
Qed.

Lemma evaluateFlag_rules_throw input flag segments now e :
  flag_enabled flag = true →
  every (rule_of input now) (flag_rules flag) = Throw e →
  decide_flag input flag segments now = Throw e.
Proof.
  intros En E. unfold evaluateFlag. rewrite En. simpl.
  rewrite rules_check, E. reflexivity.
Qed.


(** C1, as amended.  The decision has no handler around the evaluator.  When
    a rule of the flag fails (to parse or at run time), the decision returns
    the default result if the flag is disabled or if a rule before the first
    failing one evaluates falsy ([b = false]); otherwise, the flag enabled
    and every rule before the failing one truthy ([b = true]), the failure
    leaves [evaluateFlag] as an exception. *)
Theorem failing_rule_outcome input flag segments now pre rule post e b :
  flag_rules flag = pre ++ rule :: post →
  evalSync (Fixed now) (Some rule) input = Throw e →
  every (rule_of input now) pre = Return b →
  decide_flag input flag segments now
  = if flag_enabled flag && b then Throw e else Return (getDefaultFlag flag).
Proof.
  intros Hrules Hrule Hpre.
  destruct (flag_enabled flag) eqn:En; simpl.
  - assert (every (rule_of input now) (flag_rules flag)
            = if b then Throw e else Return false) as E.
    { rewrite Hrules, every_app, Hpre. destruct b; simpl; [by rewrite Hrule | done]. }
    destruct b.
    + by apply evaluateFlag_rules_throw.
    + by apply evaluateFlag_rules_false.
  - by apply evaluateFlag_disabled.
Qed.

(** C5, as amended.  The result of a rule is coerced by [ToBoolean]:
    [false], [null], [undefined], [0], [NaN] and the empty string are falsy,
    every other value is truthy, the empty array among them; the rule check
    is the conjunction of the coerced results, and the flag returns its
    default result when it is false. *)
Theorem rule_result_coercion input flag segments now vs :
  Forall2 (λ rule v, evalSync (Fixed now) (Some rule) input = Return v)
    (flag_rules flag) vs →
  (∀ v, ToBoolean v = false
        ↔ v = JBool false ∨ v = JNull ∨ v = JUndefined ∨ v = JNum 0
          ∨ v = JNaN ∨ v = JStr [])
  ∧ ToBoolean (JArr []) = true
  ∧ every (rule_of input now) (flag_rules flag) = Return (forallb ToBoolean vs)
  ∧ (forallb ToBoolean vs = false →
     decide_flag input flag segments now = Return (getDefaultFlag flag)).
Proof.
  intros Hvs. split; [apply ToBoolean_false |]. split; [done |].
  pose proof (every_values (rule_of input now) _ _ Hvs) as E.
  split; [done |]. intros F. apply evaluateFlag_rules_false. by rewrite E, F.
Qed.

(** *** Variants *)

Lemma totalWeight_nonneg variants :
  Forall (λ v, 0 ≤ var_weight v) variants → 0 ≤ totalWeight variants.
Proof. induction 1; simpl; lia. Qed.

Lemma chooseVariant_from_None bucket cumulative variants :
  Forall (λ v, 0 ≤ var_weight v) variants →
  cumulative < bucket →
  chooseVariant_from bucket cumulative variants = None
  ↔ cumulative + totalWeight variants < bucket.
Proof.
  intros Hw. revert cumulative.
  induction Hw as [| v variants Hv Hvs IH]; intros cumulative Hc; simpl.
  - split; [lia | done].
  - pose proof (totalWeight_nonneg _ Hvs).
    destruct (bucket <=? cumulative + var_weight v) eqn:E.
    + split; [done | lia].
    + rewrite IH by lia. lia.
Qed.

(** No variation is selected exactly when the bucket exceeds the sum of the
    weights. *)
Lemma chooseVariant_underflow userId flagKey variants :
  Forall (λ v, 0 ≤ var_weight v) variants →
  chooseVariant userId flagKey variants = None
  ↔ totalWeight variants < userPercentageHash userId flagKey.
Proof.
  intros Hw. unfold chooseVariant.
  pose proof (userPercentageHash_range userId flagKey).
  rewrite chooseVariant_from_None by (done || lia). lia.
Qed.

(** With no variation selected, the positive branch reads [id] of
    [undefined]. *)
Lemma firedResult_no_variant flag userId variations :
  flag_type flag = TVariant variations →
  chooseVariant userId (flag_id flag) variations = None →
  firedResult flag userId
  = Throw (TypeError "Cannot read properties of undefined (reading 'id')").
Proof. intros Ht Hc. unfold firedResult. by rewrite Ht, Hc. Qed.

(** A variant flag whose weights leave the identity without a variation
    never returns a fired result: it returns the default result when a gate
    stops it, and throws when none does. *)
Lemma variant_underflow_never_fires input flag segments now variations :
  flag_type flag = TVariant variations →
  chooseVariant (input_id input) (flag_id flag) variations = None →
  ∀ r, decide_flag input flag segments now = Return r → r = getDefaultFlag flag.
Proof.
  intros Ht Hc r. unfold evaluateFlag.
  rewrite (firedResult_no_variant _ _ _ Ht Hc).
  destruct (flag_enabled flag); simpl; [| by intros [= <-]].
  destruct (if (length (flag_rules flag) =? 0)%nat then _ else _) as [[] | e];
    simpl; [| by intros [= <-] | done].
  destruct (if negb _ && _ then _ else _) as [[] | e];
    simpl; [| by intros [= <-] | done].
  destruct (0 <? length (flag_rollouts flag))%nat.
  - destruct (run_steps _ _ _ _ _ _ _) as [[] | e]; simpl;
      [done | by intros [= <-] | done].
  - destruct (isUserInRollout _ _ _); simpl; [done | by intros [= <-]].
Qed.

(** *** Rollout steps *)

(** C3, as amended.  For a step whose start parses to the timestamp [t]: the
    step passes only if [t ≤ now]; before [t] it returns [false]; and from
    [t] on a step that sets neither a percentage nor a segment passes, both
    absent conditions counting as met. *)
Theorem step_time_gate jexlNow step segments userId flagKey input now t :
  dateGetTime (step_start step) = Some t →
  (∀ v, run_step jexlNow step segments userId flagKey input now = Return v →
        ToBoolean v = true → t ≤ now)
  ∧ (now < t →
     run_step jexlNow step segments userId flagKey input now = Return (JBool false))
  ∧ (t ≤ now → step_percentage step = None → step_segment step = None →
     run_step jexlNow step segments userId flagKey input now = Return (JBool true)).
Proof.
  intros Hd. unfold evaluateRolloutStep. rewrite Hd. simpl.
  destruct (now <? t) eqn:E.
  - split; [| split].
    + intros v [= <-]. done.
    + done.
    + lia.
  - split; [| split].
    + intros. lia.
    + lia.
    + intros _ -> ->. reflexivity.
Qed.

(** A start that does not parse reads as [NaN], and [now < NaN] is false: the
    time check lets the step through. *)
Lemma step_unparseable_start jexlNow step segments userId flagKey input now :
  dateGetTime (step_start step) = None →
  step_segment step = None →
  run_step jexlNow step segments userId flagKey input now
  = Return (JBool match step_percentage step with
                  | Some percentage => isUserInRollout userId flagKey percentage
                  | None => true
                  end).
Proof.
  intros Hd Hs. unfold evaluateRolloutStep. rewrite Hd, Hs. reflexivity.
Qed.

(** C6, as amended.  For a step whose [segment] is a non-empty string: the
    step passes only if the segments map it is given has a rule for that id
    and the rule evaluates truthy against the input, and, when the step also
    sets a percentage, the identity is in that rollout; a step whose segment
    is missing from the map, and is not the name of a member of
    [Object.prototype], returns [false], it does not throw; and the map the
    decision passes holds the rule of the tenant for every id that the flag
    lists. *)
Theorem step_segment_gate jexlNow step segments userId flagKey input now segment :
  step_segment step = Some segment →
  segment ≠ [] →
  (∀ v, run_step jexlNow step segments userId flagKey input now = Return v →
        ToBoolean v = true →
        ∃ rule w,
          segmentRule segments segment = Rule rule
          ∧ evalSync jexlNow (Some rule) input = Return w
          ∧ ToBoolean w = true
          ∧ ∀ percentage, step_percentage step = Some percentage →
                          isUserInRollout userId flagKey percentage = true)
  ∧ (segment ∉ JsObject.prototypeNames →
     JsObject.get segments segment = None →
     run_step jexlNow step segments userId flagKey input now = Return (JBool false))
  ∧ (∀ keys tenant,
       segments = flagSegmentsOf keys tenant →
       (segment ∉ JsObject.prototypeNames → tenant !! segment = None →
        run_step jexlNow step segments userId flagKey input now
        = Return (JBool false))
       ∧ (∀ rule, segmentRule segments segment = Rule rule →
                  segment ∈ keys ∧ tenant !! segment = Some rule)).
Proof.
  intros Hseg Hne.
  assert (JsString.truthy segment = true) as Ht by (by destruct segment).
  assert (segmentRule segments segment = Undefined →
          run_step jexlNow step segments userId flagKey input now
          = Return (JBool false)) as Hundef.
  { intros E. unfold evaluateRolloutStep. rewrite Hseg, Ht, E.
    by destruct (lt_number now _). }
  split; [| split].
  - intros v. unfold evaluateRolloutStep. rewrite Hseg, Ht.
    destruct (lt_number now _); [by intros [= <-] |].
    destruct (segmentRule segments segment) as [rule | | name]; simpl;
      [| by intros [= <-] | done].
    destruct (JsString.truthy rule); [| by intros [= <-]].
    destruct (evalSync jexlNow (Some rule) input) as [w | e] eqn:Hev; simpl; [| done].
    destruct (ToBoolean w) eqn:Hw; intros [= <-] Hv; [| congruence].
    exists rule, w. do 3 (split; [done |]).
    intros percentage Hp. rewrite Hp in Hv. exact Hv.
  - intros Hname Hget. apply Hundef. unfold segmentRule.
    by rewrite Hget, bool_decide_false.
  - intros keys tenant ->. split.
    + intros Hname Hnone. apply Hundef.
      rewrite segmentRule_flagSegmentsOf, bool_decide_false by done.
      destruct (decide _); [| done]. unfold tenantRule.
      by rewrite Hnone, bool_decide_false.
    + intros rule. rewrite segmentRule_flagSegmentsOf.
      destruct (decide _) as [[Hin _] | _]; [| by destruct (bool_decide _)].
      unfold tenantRule. destruct (tenant !! segment) as [r |]; [| by destruct (bool_decide _)].
      by intros [= ->].
Qed.

(** Under the name of a member of [Object.prototype], a map without an own
    property of that name yields the member, and the evaluator is called with
    it: a started step throws. *)
Lemma step_inherited_segment_throws jexlNow step segments userId flagKey input now
    segment :
  step_segment step = Some segment →
  segment ∈ JsObject.prototypeNames →
  JsObject.get segments segment = None →
  lt_number now (dateGetTime (step_start step)) = false →
  run_step jexlNow step segments userId flagKey input now
  = Throw (TypeError "str.split is not a function").
Proof.
  intros Hseg Hname Hget Hstart.
  assert (JsString.truthy segment = true) as Ht.
  { destruct segment; [| done]. exfalso. revert Hname.
    apply (bool_decide_unpack _). vm_compute. exact I. }
  unfold evaluateRolloutStep, segmentRule.
  by rewrite Hstart, Hseg, Ht, Hget, bool_decide_true.
Qed.

(** *** The steps in order *)

Lemma run_steps_first_match jexlNow segments userId flagKey input now pre step post :
  Forall (step_fails evalSync dateGetTime jexlNow segments userId flagKey input now) pre →
  step_passes evalSync dateGetTime jexlNow segments userId flagKey input now step →
  run_steps jexlNow (pre ++ step :: post) segments userId flagKey input now
  = Return true.
Proof.
  intros Hpre (v & Hv & Tv).
  induction Hpre as [| s pre (w & Hw & Tw) _ IH]; simpl.
  - rewrite Hv. simpl. by rewrite Tv.
  - rewrite Hw. simpl. by rewrite Tw.
Qed.

Lemma run_steps_no_match jexlNow segments userId flagKey input now rollouts :
  Forall (step_fails evalSync dateGetTime jexlNow segments userId flagKey input now) rollouts →
  run_steps jexlNow rollouts segments userId flagKey input now = Return false.
Proof.
  induction 1 as [| s rollouts (w & Hw & Tw) _ IH]; simpl; [done |].
  rewrite Hw. simpl. by rewrite Tw.
Qed.

Lemma firedResult_isEval flag userId r :
  firedResult flag userId = Return r → res_isEval r = true.
Proof.
  unfold firedResult. destruct (flag_type flag) as [| payload | variations].
  - by intros [= <-].
  - by intros [= <-].
  - destruct (match chooseVariant _ _ _ with Some _ => _ | None => _ end);
      [by intros [= <-] | done].
Qed.

Lemma getDefaultFlag_isEval flag : res_isEval (getDefaultFlag flag) = false.
Proof. unfold getDefaultFlag. by destruct (flag_type flag). Qed.

Abbreviation steps_of input flag segments now :=
  (run_steps (Fixed now) (flag_rollouts flag)
     (flagSegmentsOf (flag_segments flag) segments) (input_id input)
     (flag_id flag) input now).

(** The decision of a flag that has steps. *)
Lemma evaluateFlag_steps input flag segments now :
  flag_rollouts flag ≠ [] →
  decide_flag input flag segments now
  = if flag_enabled flag then
      every (rule_of input now) (flag_rules flag) ≫= λ rulesPassed : bool,
        if rulesPassed then
          steps_of input flag segments now ≫= λ includedInRollout : bool,
            if includedInRollout then firedResult flag (input_id input)
            else Return (getDefaultFlag flag)
        else Return (getDefaultFlag flag)
    else Return (getDefaultFlag flag).
Proof.
  intros Hr. unfold evaluateFlag.
  destruct (flag_enabled flag); simpl; [| done].
  rewrite rules_check.
  destruct (every _ (flag_rules flag)) as [[] | e]; simpl; try done.
  destruct (flag_rollouts flag) as [| s rollouts] eqn:E; [done |].
  simpl. destruct (run_step _ s _ _ _ _ _) as [v | e]; simpl; [| done].
  destruct (ToBoolean v); simpl; [done |].
  destruct (run_steps _ rollouts _ _ _ _ _) as [[] | e]; done.
Qed.

(** C7.  For a flag that has steps: the base percentage is not consulted;
    with the flag enabled and the rules passing, the decision reaches the
    positive branch exactly when the walk over the steps returns [true], and
    the default result when it returns [false]; the walk returns [true] at
    the first step that passes, whatever the steps after it are, and
    [false] when every step fails. *)
Theorem rollout_steps_precedence input flag segments now :
  flag_rollouts flag ≠ [] →
  (∀ pct, decide_flag input (set_rollout pct flag) segments now
          = decide_flag input flag segments now)
  ∧ (flag_enabled flag = true →
     every (rule_of input now) (flag_rules flag) = Return true →
     (steps_of input flag segments now = Return true →
      decide_flag input flag segments now = firedResult flag (input_id input))
     ∧ (steps_of input flag segments now = Return false →
        decide_flag input flag segments now = Return (getDefaultFlag flag))
     ∧ (∀ r, decide_flag input flag segments now = Return r →
             (res_isEval r = true ↔ steps_of input flag segments now = Return true)))
  ∧ (∀ jexlNow segs userId flagKey pre step post,
       Forall (step_fails evalSync dateGetTime jexlNow segs userId flagKey input now) pre →
       step_passes evalSync dateGetTime jexlNow segs userId flagKey input now step →
       run_steps jexlNow (pre ++ step :: post) segs userId flagKey input now
       = Return true)
  ∧ (∀ jexlNow segs userId flagKey rollouts,
       Forall (step_fails evalSync dateGetTime jexlNow segs userId flagKey input now)
         rollouts →
       run_steps jexlNow rollouts segs userId flagKey input now = Return false).
Proof.
  intros Hr. split; [| split; [| split]].
  - intros pct. rewrite !evaluateFlag_steps by done. reflexivity.
  - intros En Hrules. rewrite evaluateFlag_steps, En, Hrules by done. simpl.
    destruct (steps_of input flag segments now) as [[] | e] eqn:E; simpl.
    + split; [done |]. split; [done |]. intros r Hfired.
      split; [done |]. intros _. by apply firedResult_isEval in Hfired.
    + split; [done |]. split; [done |]. intros r [= <-].
      rewrite getDefaultFlag_isEval. split; done.
    + split; [done |]. split; [done |]. done.
  - intros. by apply run_steps_first_match.
  - intros. by apply run_steps_no_match.
Qed.

(** *** What the steps read of the segments *)

Lemma run_step_segments_ext jexlNow step segs segs' userId flagKey input now :
  (∀ segment, step_segment step = Some segment →
              segmentRule segs' segment = segmentRule segs segment) →
  run_step jexlNow step segs' userId flagKey input now
  = run_step jexlNow step segs userId flagKey input now.
Proof.
  intros H. unfold evaluateRolloutStep.
  destruct (step_segment step) as [segment |]; [| done].
  by rewrite (H segment).
Qed.

Lemma run_steps_segments_ext jexlNow rollouts segs segs' userId flagKey input now :
  (∀ step segment, step ∈ rollouts → step_segment step = Some segment →
                   segmentRule segs' segment = segmentRule segs segment) →
  run_steps jexlNow rollouts segs' userId flagKey input now
  = run_steps jexlNow rollouts segs userId flagKey input now.
Proof.
  induction rollouts as [| step rollouts IH]; intros H; simpl; [done |].
  rewrite (run_step_segments_ext _ step segs segs').
  - destruct (run_step _ step segs _ _ _ _) as [v | e]; simpl; [| done].
    destruct (ToBoolean v); [done |].
    apply IH. intros s k Hs. apply H. by right.
  - intros k. apply H. by left.
Qed.

(** X31.  A flag without steps that lists a segment other than [__proto__]
    fires only if the expression of one of the listed segments evaluates
    truthy against the input.  For a flag with steps the disjunction over
    the listed segments is not run: the decision reads of the segments only
    what its steps look up. *)
Theorem standalone_segment_disjunction input flag segments now :
  (flag_rollouts flag = [] →
   (∃ segment, segment ∈ flag_segments flag ∧ segment ≠ js "__proto__") →
   ∀ r, decide_flag input flag segments now = Return r →
        res_isEval r = true →
        ∃ segment v,
          segment ∈ flag_segments flag
          ∧ evalSync (Fixed now) (segments !! segment) input = Return v
          ∧ ToBoolean v = true)
  ∧ (flag_rollouts flag ≠ [] →
     ∀ keys' segments',
       (∀ step segment,
          step ∈ flag_rollouts flag → step_segment step = Some segment →
          segmentRule (flagSegmentsOf keys' segments') segment
          = segmentRule (flagSegmentsOf (flag_segments flag) segments) segment) →
       decide_flag input (set_segments keys' flag) segments' now
       = decide_flag input flag segments now).
Proof.
  split.
  - intros Hr (seg & Hseg & Hproto) r. unfold evaluateFlag.
    pose proof (getDefaultFlag_isEval flag) as Hd.
    destruct (flag_enabled flag); simpl; [| intros [= <-]; congruence].
    rewrite rules_check.
    destruct (every _ (flag_rules flag)) as [[] | e]; simpl;
      [| intros [= <-]; congruence | done].
    rewrite Hr, hasSegments_iff.
    assert (existsb (λ k, negb (bool_decide (k = js "__proto__"))) (flag_segments flag)
            = true) as ->.
    { apply existsb_exists. exists seg. split; [by apply list_elem_of_In |].
      by rewrite bool_decide_false. }
    simpl.
    destruct (some _ _) as [[] | e] eqn:E; simpl;
      [| intros [= <-]; congruence | done].
    intros _ _. apply some_true in E as (x & v & Hx & Hv & Tv).
    apply elem_of_values in Hx as [k Hk].
    apply elem_of_flagSegmentsOf in Hk as (Hk & _ & ->).
    exists k, v. split; [done |]. split; [| done].
    by apply evalValue_tenantRule.
  - intros Hr keys' segments' H.
    rewrite !evaluateFlag_steps by done. simpl.
    by rewrite (run_steps_segments_ext _ _ _ _ _ _ _ _ H).
Qed.

(** *** The identity *)






End Decision.

(** ** The definition store *)

Section Sync.

Import Storage.

Lemma lookup_fold_insert {V} (g : V → V) (target source : gmap jsstring V) k :
  map_fold (λ key v acc, <[key := g v]> acc) target source !! k
  = match source !! k with
    | Some v => Some (g v)
    | None => target !! k
    end.
Proof.
  apply (map_fold_weak_ind
           (λ acc m, acc !! k = match m !! k with
                                | Some v => Some (g v)
                                | None => target !! k
                                end)).
  - by rewrite lookup_empty.
  - intros i x m acc Hi IH.
    destruct (decide (i = k)) as [-> | Hne].
    + by rewrite !lookup_insert_eq.
    + by rewrite !lookup_insert_ne.
Qed.

Lemma flag_enabled_set_enabled b flag : flag_enabled (set_enabled b flag) = b.
Proof. reflexivity. Qed.

Variable self : AppKV.
Variable kv : gmap jsstring AppData.
Variable input : SyncInput.

Abbreviation source := (getData self kv (Some (default (env self) (sourceEnv input)))).
Abbreviation target := (getData self kv (Some (targetEnv input))).
Abbreviation synced := ((syncEnv self kv input).2).

Lemma synced_flags flagKey :
  flags synced !! flagKey
  = match flags source !! flagKey with
    | Some flag => Some (if overwrite input then flag else set_enabled false flag)
    | None => flags target !! flagKey
    end.
Proof.
  unfold syncEnv. simpl.
  rewrite (lookup_fold_insert
             (λ flag, if negb (overwrite input) then set_enabled false flag else flag)).
  by destruct (overwrite input).
Qed.

Lemma synced_segments segmentKey :
  segments synced !! segmentKey
  = match segments source !! segmentKey with
    | Some rule => Some rule
    | None => segments target !! segmentKey
    end.
Proof. unfold syncEnv. simpl. apply (lookup_fold_insert (λ rule, rule)). Qed.


End Sync.

(** ** Examples, with the host of the examples *)

(** C1: the flag [malformedRuleFlag] has rules, its rule [((] fails to parse,
    and the decision does not return the default result: it throws. *)
Lemma malformed_rule_throws :
  flag_rules malformedRuleFlag ≠ []
  ∧ literalEval (Fixed 0) (Some (js "((")) (visitor "user-123")
    = Throw (Error "parse error")
  ∧ evaluateFlag literalEval tableDate (visitor "user-123") malformedRuleFlag ∅ 0
    = Throw (Error "parse error")
  ∧ evaluateFlag literalEval tableDate (visitor "user-123") malformedRuleFlag ∅ 0
    ≠ Return (getDefaultFlag malformedRuleFlag).
Proof. repeat split; [done | done]. Qed.

Lemma failing_rule_outcome_witness :
  evaluateFlag literalEval tableDate (visitor "user-123") malformedRuleFlag ∅ 0
  = Throw (Error "parse error").
Proof.
  exact (failing_rule_outcome literalEval tableDate (visitor "user-123")
           malformedRuleFlag ∅ 0 [js "true"] (js "((") [js "true"]
           (Error "parse error") true eq_refl eq_refl eq_refl).
Defined.

(** C5: the empty array is truthy; a flag whose only rule yields the empty
    array fires. *)
Lemma empty_array_rule_is_truthy :
  literalEval (Fixed 0) (Some (js "[]")) (visitor "user-123") = Return (JArr [])
  ∧ ToBoolean (JArr []) = true
  ∧ evaluateFlag literalEval tableDate (visitor "user-123") emptyArrayRuleFlag ∅ 0
    = Return {| res_type := RBoolean; res_result := JBool true; res_isEval := true |}.
Proof. repeat split. Qed.

Lemma rule_result_coercion_witness :
  evaluateFlag literalEval tableDate (visitor "user-123") zeroRuleFlag ∅ 0
  = Return (getDefaultFlag zeroRuleFlag).
Proof.
  apply (rule_result_coercion literalEval tableDate (visitor "user-123")
           zeroRuleFlag ∅ 0 [JNum 0]).
  - repeat constructor.
  - reflexivity.
Defined.

(** C2: [underweightFlag] is enabled, has no rules, no segments and no
    steps, and its base rollout is 100; the bucket of [user-123] is 95, above
    the sum 20 of the weights.  The decision throws. *)
Theorem variant_underflow_throws :
  userPercentageHash (Some (js "user-123")) (flag_id underweightFlag) = 95
  ∧ chooseVariant (Some (js "user-123")) (flag_id underweightFlag)
      [variation "control" 10; variation "test" 10] = None
  ∧ evaluateFlag literalEval tableDate (visitor "user-123") underweightFlag ∅ 0
    = Throw (TypeError "Cannot read properties of undefined (reading 'id')").
Proof. repeat split. Qed.

(** C3: from its start on, a step that sets neither a percentage nor a
    segment passes. *)
Lemma bare_step_passes :
  step_percentage bareStep = None
  ∧ step_segment bareStep = None
  ∧ evaluateRolloutStep literalEval tableDate WallClock bareStep []
      (Some (js "user-123")) (js "checkout") (visitor "user-123") 1704067200000
    = Return (JBool true).
Proof. repeat split. Qed.

Lemma step_time_gate_witness :
  evaluateRolloutStep literalEval tableDate WallClock bareStep []
    (Some (js "user-123")) (js "checkout") (visitor "user-123") 1704067199999
  = Return (JBool false).
Proof.
  apply (step_time_gate literalEval tableDate WallClock bareStep []
           (Some (js "user-123")) (js "checkout") (visitor "user-123")
           1704067199999 1704067200000 eq_refl).
  lia.
Defined.

(** C4: for the identity [é] the code hashes the code unit E9 and lands in
    bucket 73; the hash of the UTF-8 octets C3 A9 lands in bucket 50. *)
Lemma bucket_of_non_ascii_identity :
  userPercentageHash (Some eAcute) (js "f") = 73
  ∧ bucket_spec eAcute (js "f") = 50
  ∧ userPercentageHash (Some eAcute) (js "f") ≠ bucket_spec eAcute (js "f").
Proof. vm_compute. repeat split; discriminate. Qed.

Lemma bucket_fnv1a_code_units_witness :
  userPercentageHash (Some (js "user-123")) (js "new-dashboard")
  = bucket_spec (js "user-123") (js "new-dashboard").
Proof.
  apply (bucket_fnv1a_code_units (js "user-123") (js "new-dashboard"));
    unfold JsString.is_ascii; simpl; repeat constructor; lia.
Defined.

(** C6: a step whose segment is the empty string passes, though no map has
    a segment of that name. *)
Lemma empty_segment_step_passes :
  step_segment emptySegmentStep = Some (js "")
  ∧ segmentRule [] (js "") = Undefined
  ∧ evaluateRolloutStep literalEval tableDate WallClock emptySegmentStep []
      (Some (js "user-123")) (js "checkout") (visitor "user-123") 1704067200000
    = Return (JBool true).
Proof. repeat split. Qed.

Lemma step_segment_gate_witness :
  evaluateRolloutStep literalEval tableDate WallClock ghostStep []
    (Some (js "user-123")) (js "checkout") (visitor "user-123") 1704067200000
  = Return (JBool false).
Proof.
  apply (step_segment_gate literalEval tableDate WallClock ghostStep []
           (Some (js "user-123")) (js "checkout") (visitor "user-123")
           1704067200000 (js "ghost") eq_refl).
  - done.
  - apply (bool_decide_unpack _). vm_compute. exact I.
  - reflexivity.
Defined.

Lemma rollout_steps_precedence_witness :
  evaluateFlag literalEval tableDate (visitor "user-123")
    (set_rollout 100 steppedFlag) ∅ 1704067200000
  = evaluateFlag literalEval tableDate (visitor "user-123") steppedFlag ∅
      1704067200000.
Proof.
  refine (proj1 (rollout_steps_precedence literalEval tableDate
                   (visitor "user-123") steppedFlag ∅ 1704067200000 _) 100).
  done.
Defined.

Lemma standalone_segment_disjunction_witness :
  (∃ segment v,
     segment ∈ flag_segments segmentedFlag
     ∧ literalEval (Fixed 0) (tenantSegments !! segment) (visitor "user-123")
       = Return v
     ∧ ToBoolean v = true)
  ∧ evaluateFlag literalEval tableDate (visitor "user-123")
      (set_segments [] steppedSegmentFlag) ∅ 1735689600000
    = evaluateFlag literalEval tableDate (visitor "user-123") steppedSegmentFlag
        betaSegments 1735689600000.
Proof.
  destruct (standalone_segment_disjunction literalEval tableDate
              (visitor "user-123") segmentedFlag tenantSegments 0) as [Hor _].
  destruct (standalone_segment_disjunction literalEval tableDate
              (visitor "user-123") steppedSegmentFlag betaSegments 1735689600000)
    as [_ Hsteps].
  split.
  - apply (Hor eq_refl
             ltac:(exists (js "premiumUsers"); split; [left | done])
             {| res_type := RBoolean; res_result := JBool true; res_isEval := true |});
      reflexivity.
  - apply (Hsteps ltac:(done) [] ∅).
    intros s segment Hs. simpl in Hs.
    apply elem_of_cons in Hs as [-> | Hs];
      [| apply elem_of_cons in Hs as [-> | Hs]; [| by apply elem_of_nil in Hs]];
      done.
Defined.

(** C8: [protoSegmentFlag] is enabled, has no rules and no steps, and lists
    the one segment [__proto__]; in [protoTenant] the rule of that segment
    evaluates falsy.  Whatever the tenant, the object that the decision
    builds from the list has no property, the disjunction over the listed
    segments is skipped, and the flag fires. *)
Theorem proto_segment_skips_disjunction
    (evalSync : NowFn → option jsstring → FlagEvaluationInput → outcome jsval)
    (dateGetTime : jsstring → option Z) (input : FlagEvaluationInput)
    (segments : gmap jsstring jsstring) (now : Z) :
  (flag_enabled protoSegmentFlag = true
   ∧ flag_rules protoSegmentFlag = []
   ∧ flag_rollouts protoSegmentFlag = []
   ∧ flag_segments protoSegmentFlag = [js "__proto__"])
  ∧ literalEval (Fixed now) (protoTenant !! js "__proto__") input
    = Return (JBool false)
  ∧ JsObject.values (flagSegmentsOf (flag_segments protoSegmentFlag) segments) = []
  ∧ evaluateFlag evalSync dateGetTime input protoSegmentFlag segments now
    = Return {| res_type := RBoolean; res_result := JBool true; res_isEval := true |}.
Proof. repeat split. Qed.



(** * Further properties of the engine *)

(** ** Buckets, rollouts and variants *)

Section Bucketing.

Implicit Types (userId : option jsstring) (flagKey : jsstring).

Lemma isUserInRollout_le userId flagKey p q :
  p ≤ q →
  isUserInRollout userId flagKey p = true →
  isUserInRollout userId flagKey q = true.
Proof.
  intros Hpq. unfold isUserInRollout.
  pose proof (userPercentageHash_range userId flagKey).
  destruct (p =? 100) eqn:Ep; destruct (q =? 100) eqn:Eq; try done; lia.
Qed.

(** X1.  Raising the percentage never drops an identity from a rollout. *)
Theorem isUserInRollout_monotone userId flagKey p q :
  p ≤ q →
  isUserInRollout userId flagKey p = true →
  isUserInRollout userId flagKey q = true.
Proof.
  intros Hpq. unfold isUserInRollout.
  pose proof (userPercentageHash_range userId flagKey).
  destruct (p =? 100) eqn:Ep; destruct (q =? 100) eqn:Eq; try done; lia.
Qed.

(** X2.  A percentage of 0 or less admits no identity and a percentage of
    100 or more admits every identity. *)
Theorem isUserInRollout_extremes userId flagKey p :
  (p ≤ 0 → isUserInRollout userId flagKey p = false)
  ∧ (100 ≤ p → isUserInRollout userId flagKey p = true).
Proof.
  unfold isUserInRollout.
  pose proof (userPercentageHash_range userId flagKey).
  split; intros Hp; destruct (p =? 100) eqn:Ep; try done; lia.
Qed.

(** X3.  The identity and the flag key meet in one string: an identity that
    contains a colon shares its bucket with the shorter identity and the
    longer key. *)
Theorem userPercentageHash_colon (a b c : jsstring) :
  userPercentageHash (Some (a ++ js ":" ++ b)) c
  = userPercentageHash (Some a) (b ++ js ":" ++ c).
Proof. unfold userPercentageHash. simpl. by rewrite <- !app_assoc. Qed.

(** X4.  The hash is an unsigned 32-bit integer, and no value that the loop
    holds leaves the range in which doubles are exact. *)
Theorem hashFnv32a_exact str :
  0 ≤ hashFnv32a str < 2 ^ 32
  ∧ ∀ prefix c, - 2 ^ 53 < hashStep (fold_left hashStep prefix 2166136261) c < 2 ^ 53.
Proof.
  split; [apply hashFnv32a_range |]. intros. apply hashStep_exact.
Qed.

Lemma chooseVariant_from_Some bucket cumulative variants variantId :
  chooseVariant_from bucket cumulative variants = Some variantId →
  ∃ v, v ∈ variants ∧ var_id v = variantId.
Proof.
  revert cumulative. induction variants as [| v variants IH]; intros c; simpl; [done |].
  destruct (bucket <=? c + var_weight v).
  - intros [= <-]. exists v. split; [left | done].
  - intros H. destruct (IH _ H) as (w & Hw & E). exists w. split; [by right | done].
Qed.

Lemma chooseVariant_from_app bucket cumulative pre post variantId :
  chooseVariant_from bucket cumulative pre = Some variantId →
  chooseVariant_from bucket cumulative (pre ++ post) = Some variantId.
Proof.
  revert cumulative. induction pre as [| v pre IH]; intros c; simpl; [done |].
  destruct (bucket <=? c + var_weight v); [done | apply IH].
Qed.

Lemma chooseVariant_is_Some userId flagKey variants :
  Forall (λ v, 0 ≤ var_weight v) variants → 100 ≤ totalWeight variants →
  is_Some (chooseVariant userId flagKey variants).
Proof.
  intros Hw Ht.
  destruct (chooseVariant userId flagKey variants) eqn:E; [by eexists |].
  apply chooseVariant_underflow in E; [| done].
  pose proof (userPercentageHash_range userId flagKey). lia.
Qed.

(** X6.  The choice depends on the variations up to the chosen one only:
    variations appended after it, whatever their weights, do not change
    it. *)
Theorem chooseVariant_prefix userId flagKey pre post variantId :
  chooseVariant userId flagKey pre = Some variantId →
  chooseVariant userId flagKey (pre ++ post) = Some variantId.
Proof. apply chooseVariant_from_app. Qed.

Lemma find_id_Some variations (v : Variation) :
  v ∈ variations →
  ∃ w, List.find (λ x, bool_decide (var_id x = var_id v)) variations = Some w
       ∧ w ∈ variations ∧ var_id w = var_id v.
Proof.
  induction variations as [| x variations IH]; [by intros ?%elem_of_nil |].
  intros Hin. simpl. destruct (bool_decide (var_id x = var_id v)) eqn:E.
  - apply bool_decide_eq_true in E. exists x. split; [done |]. split; [left | done].
  - apply elem_of_cons in Hin as [-> | Hin].
    + apply bool_decide_eq_false in E. done.
    + destruct (IH Hin) as (w & Hf & Hw & Hid). exists w.
      split; [done |]. split; [by right | done].
Qed.

(** X7.  A variant flag whose weights are integers, none negative, that
    sum to 100 or more has a fired result for every identity: the payload,
    else the id, of the first variation that carries the chosen id. *)
Theorem firedResult_variant_total flag userId variations :
  flag_type flag = TVariant variations →
  Forall (λ v, 0 ≤ var_weight v) variations →
  100 ≤ totalWeight variations →
  ∃ v, chooseVariant userId (flag_id flag) variations = Some (var_id v)
       ∧ List.find (λ x, bool_decide (var_id x = var_id v)) variations = Some v
       ∧ firedResult flag userId
         = Return {| res_type := RVariant;
                     res_result := nullish (var_payload v) (JStr (var_id v));
                     res_isEval := true |}.
Proof.
  intros Ht Hw Hsum.
  destruct (chooseVariant_is_Some userId (flag_id flag) variations Hw Hsum)
    as [variantId Hc].
  destruct (chooseVariant_from_Some _ _ _ _ Hc) as (v & Hv & <-).
  destruct (find_id_Some _ _ Hv) as (w & Hf & Hw' & Hid).
  rewrite <- Hid in Hc, Hf. exists w. split; [done |]. split; [done |].
  unfold firedResult. by rewrite Ht, Hc, Hf.
Qed.

End Bucketing.

(** ** The shape of a decision *)

Section Shape.

Variable evalSync : NowFn → option jsstring → FlagEvaluationInput → outcome jsval.
Variable dateGetTime : jsstring → option Z.

Abbreviation decide_flag := (evaluateFlag evalSync dateGetTime).
Abbreviation rule_of input now := (λ rule : jsstring, evalSync (Fixed now) (Some rule) input).
Abbreviation run_step := (evaluateRolloutStep evalSync dateGetTime).
Abbreviation run_steps := (evaluateRolloutSteps evalSync dateGetTime).
Abbreviation segment_of input now := (λ rule : segval, evalValue evalSync (Fixed now) rule input).
Abbreviation named := (λ k : jsstring, negb (bool_decide (k = js "__proto__"))).

(** The decision of a flag that has no steps. *)
Lemma evaluateFlag_base input flag segments now :
  flag_rollouts flag = [] →
  decide_flag input flag segments now
  = if flag_enabled flag then
      every (rule_of input now) (flag_rules flag) ≫= λ rulesPassed : bool,
        if rulesPassed then
          (if existsb named (flag_segments flag) then
             some (segment_of input now)
               (JsObject.values (flagSegmentsOf (flag_segments flag) segments))
           else Return true)
          ≫= λ segmentsPassed : bool,
            if segmentsPassed then
              if isUserInRollout (input_id input) (flag_id flag) (flag_rollout flag)
              then firedResult flag (input_id input)
              else Return (getDefaultFlag flag)
            else Return (getDefaultFlag flag)
        else Return (getDefaultFlag flag)
    else Return (getDefaultFlag flag).
Proof.
  intros Hr. unfold evaluateFlag.
  destruct (flag_enabled flag); simpl; [| done].
  rewrite rules_check.
  destruct (every _ (flag_rules flag)) as [[] | e]; simpl; try done.
  rewrite Hr, hasSegments_iff. simpl.
  destruct (existsb _ (flag_segments flag)); simpl.
  - destruct (some _ _) as [[] | e]; simpl; try done.
    by destruct (isUserInRollout _ _ _).
  - by destruct (isUserInRollout _ _ _).
Qed.

Lemma getDefaultFlag_type flag : res_type (getDefaultFlag flag) = typeOf flag.
Proof. unfold getDefaultFlag, typeOf. by destruct (flag_type flag). Qed.

Lemma firedResult_type flag userId r :
  firedResult flag userId = Return r → res_type r = typeOf flag.
Proof.
  unfold firedResult, typeOf. destruct (flag_type flag) as [| payload | variations].
  - by intros [= <-].
  - by intros [= <-].
  - destruct (match chooseVariant _ _ _ with Some _ => _ | None => _ end);
      [by intros [= <-] | done].
Qed.

Lemma evaluateFlag_cases input flag segments now r :
  decide_flag input flag segments now = Return r →
  r = getDefaultFlag flag ∨ firedResult flag (input_id input) = Return r.
Proof.
  unfold evaluateFlag.
  destruct (flag_enabled flag); simpl; [| intros [= <-]; by left].
  destruct (if (length (flag_rules flag) =? 0)%nat then _ else _) as [[] | e];
    simpl; [| intros [= <-]; by left | done].
  destruct (if negb _ && _ then _ else _) as [[] | e];
    simpl; [| intros [= <-]; by left | done].
  destruct (0 <? length (flag_rollouts flag))%nat.
  - destruct (run_steps _ _ _ _ _ _ _) as [[] | e]; simpl;
      [by right | intros [= <-]; by left | done].
  - destruct (isUserInRollout _ _ _); simpl; [by right | intros [= <-]; by left].
Qed.

(** X8.  A result that the decision returns carries the type of the flag and
    is either the default result, with [isEval] false, or the fired result,
    with [isEval] true; for a boolean flag [result] and [isEval] are the
    same boolean. *)
Theorem decision_shape input flag segments now r :
  decide_flag input flag segments now = Return r →
  res_type r = typeOf flag
  ∧ (r = getDefaultFlag flag ∧ res_isEval r = false
     ∨ firedResult flag (input_id input) = Return r ∧ res_isEval r = true)
  ∧ (flag_type flag = TBoolean → res_result r = JBool (res_isEval r)).
Proof.
  intros H. destruct (evaluateFlag_cases _ _ _ _ _ H) as [-> | Hf].
  - split; [apply getDefaultFlag_type |]. split.
    + left. split; [done | apply getDefaultFlag_isEval].
    + intros Ht. unfold getDefaultFlag. by rewrite Ht.
  - split; [by eapply firedResult_type |]. split.
    + right. split; [done | by eapply firedResult_isEval].
    + intros Ht. unfold firedResult in Hf. rewrite Ht in Hf. by injection Hf as <-.
Qed.

(** X9.  Raising the base percentage of a flag keeps every fired decision as
    it is. *)
Theorem rollout_raise_keeps_fired input flag segments now p q r :
  p ≤ q →
  decide_flag input (set_rollout p flag) segments now = Return r →
  res_isEval r = true →
  decide_flag input (set_rollout q flag) segments now = Return r.
Proof.
  intros Hpq. destruct (flag_rollouts flag) as [| s rollouts] eqn:Hr.
  - rewrite !evaluateFlag_base by done. simpl.
    pose proof (getDefaultFlag_isEval flag) as Hd.
    change (getDefaultFlag (set_rollout p flag)) with (getDefaultFlag flag).
    change (getDefaultFlag (set_rollout q flag)) with (getDefaultFlag flag).
    change (firedResult (set_rollout p flag)) with (firedResult flag).
    change (firedResult (set_rollout q flag)) with (firedResult flag).
    destruct (flag_enabled flag); [| intros [= <-]; congruence].
    destruct (every _ _) as [[] | e]; simpl; [| intros [= <-]; congruence | done].
    destruct (if existsb _ _ then _ else _) as [[] | e]; simpl;
      [| intros [= <-]; congruence | done].
    destruct (isUserInRollout _ _ p) eqn:Hp; [| intros [= <-]; congruence].
    by rewrite (isUserInRollout_le _ _ p q Hpq Hp).
  - assert (flag_rollouts flag ≠ []) as Hne by by rewrite Hr.
    rewrite !evaluateFlag_steps by done. done.
Qed.

(** X10.  A flag without steps whose base percentage is 0 or less fires for
    no input. *)
Theorem rollout_zero_never_fires input flag segments now r :
  flag_rollouts flag = [] →
  flag_rollout flag ≤ 0 →
  decide_flag input flag segments now = Return r →
  r = getDefaultFlag flag.
Proof.
  intros Hr Hz. rewrite evaluateFlag_base by done.
  assert (isUserInRollout (input_id input) (flag_id flag) (flag_rollout flag) = false)
    as ->.
  { unfold isUserInRollout.
    pose proof (userPercentageHash_range (input_id input) (flag_id flag)).
    destruct (flag_rollout flag =? 100) eqn:E; lia. }
  destruct (flag_enabled flag); [| by intros [= <-]].
  destruct (every _ _) as [[] | e]; simpl; [| by intros [= <-] | done].
  destruct (if existsb _ _ then _ else _) as [[] | e]; simpl;
    [by intros [= <-] | by intros [= <-] | done].
Qed.

(** *** Segments and steps *)

Lemma get_Some_elem {A} (o : JsObject.t A) k v :
  JsObject.get o k = Some v → (k, v) ∈ o.
Proof.
  induction o as [| [k0 v0] o IH]; simpl; [done |].
  destruct (decide (k0 = k)) as [-> | Hne].
  - intros [= <-]. left.
  - intros H. right. by apply IH.
Qed.

Lemma elem_of_values_2 {A} (o : JsObject.t A) k v :
  (k, v) ∈ o → v ∈ JsObject.values o.
Proof.
  intros Hin. unfold JsObject.values. apply elem_of_app.
  destruct (JsObject.array_index k) as [i |] eqn:E.
  - left. apply list_elem_of_fmap. exists (i, v). split; [done |].
    rewrite merge_sort_Permutation. apply list_elem_of_omap.
    exists (k, v). split; [done |]. simpl. by rewrite E.
  - right. apply list_elem_of_fmap. exists (k, v). split; [done |].
    apply list_elem_of_filter. done.
Qed.

Lemma elem_of_flagSegmentsOf_2 (keys : list jsstring) (tenant : gmap jsstring jsstring) k :
  k ∈ keys → k ≠ js "__proto__" →
  (k, tenantRule tenant k) ∈ flagSegmentsOf keys tenant.
Proof.
  intros Hin Hne. apply get_Some_elem.
  rewrite get_flagSegmentsOf. by rewrite decide_True.
Qed.

Lemma proto_is_prototypeName : js "__proto__" ∈ JsObject.prototypeNames.
Proof. apply (bool_decide_unpack _). vm_compute. exact I. Qed.

Lemma named_not_proto (k : jsstring) :
  k ∉ JsObject.prototypeNames → k ≠ js "__proto__".
Proof. intros Hk ->. apply Hk, proto_is_prototypeName. Qed.

Lemma existsb_named (keys : list jsstring) :
  keys ≠ [] → (∀ k, k ∈ keys → k ∉ JsObject.prototypeNames) →
  existsb named keys = true.
Proof.
  destruct keys as [| k keys]; [done |]. intros _ Hall. simpl.
  rewrite bool_decide_false; [done |]. apply named_not_proto, Hall. left.
Qed.

(** For a name that [Object.prototype] does not have, the evaluator is given
    [segments[k]]: the rule, or [undefined]. *)
Lemma evalValue_named (jexlNow : NowFn) (tenant : gmap jsstring jsstring)
    (k : jsstring) (input : FlagEvaluationInput) :
  k ∉ JsObject.prototypeNames →
  evalValue evalSync jexlNow (tenantRule tenant k) input
  = evalSync jexlNow (tenant !! k) input.
Proof.
  intros Hk. rewrite tenantRule_named by done. by destruct (tenant !! k).
Qed.

Lemma some_returns {A} (f : A → outcome jsval) xs :
  (∀ x, x ∈ xs → ∃ v, f x = Return v) →
  ∃ b, some f xs = Return b
       ∧ (b = true ↔ ∃ x v, x ∈ xs ∧ f x = Return v ∧ ToBoolean v = true).
Proof.
  induction xs as [| x xs IH]; intros Hall; simpl.
  - exists false. split; [done |]. split; [done |].
    intros (x & v & Hx & _). by apply elem_of_nil in Hx.
  - destruct (Hall x) as [v Hv]; [left |]. rewrite Hv. simpl.
    destruct (ToBoolean v) eqn:Tv.
    + exists true. split; [done |]. split; [| done].
      intros _. exists x, v. split; [left | done].
    + destruct IH as (b & Hb & Hiff); [intros y Hy; apply Hall; by right |].
      exists b. split; [done |]. rewrite Hiff. split.
      * intros (y & w & Hy & Hw & Tw). exists y, w. split; [by right | done].
      * intros (y & w & Hy & Hw & Tw). apply elem_of_cons in Hy as [-> | Hy].
        { rewrite Hv in Hw. injection Hw as <-. congruence. }
        by exists y, w.
Qed.

(** X11.  For a flag without steps that lists segments, none of them named
    like a member of [Object.prototype], with the flag enabled, the rules
    passing and every listed segment evaluating without an exception: if one
    listed segment evaluates truthy, whatever its place in the list, the
    decision is that of the base percentage; if none does, the decision is
    the default result. *)
Theorem standalone_segments_any input flag segments now :
  flag_enabled flag = true →
  flag_rollouts flag = [] →
  flag_segments flag ≠ [] →
  (∀ k, k ∈ flag_segments flag → k ∉ JsObject.prototypeNames) →
  every (rule_of input now) (flag_rules flag) = Return true →
  (∀ k, k ∈ flag_segments flag →
        ∃ v, evalSync (Fixed now) (segments !! k) input = Return v) →
  ((∃ k v, k ∈ flag_segments flag
           ∧ evalSync (Fixed now) (segments !! k) input = Return v
           ∧ ToBoolean v = true) →
   decide_flag input flag segments now
   = if isUserInRollout (input_id input) (flag_id flag) (flag_rollout flag)
     then firedResult flag (input_id input)
     else Return (getDefaultFlag flag))
  ∧ ((∀ k v, k ∈ flag_segments flag →
             evalSync (Fixed now) (segments !! k) input = Return v →
             ToBoolean v = false) →
     decide_flag input flag segments now = Return (getDefaultFlag flag)).
Proof.
  intros En Hr Hs Hnames Hrules Hall.
  rewrite evaluateFlag_base, En, Hrules by done. simpl.
  rewrite existsb_named by done.
  destruct (some_returns (segment_of input now)
              (JsObject.values (flagSegmentsOf (flag_segments flag) segments)))
    as (b & Hb & Hiff).
  { intros x Hx. apply elem_of_values in Hx as [k Hk].
    apply elem_of_flagSegmentsOf in Hk as (Hk & _ & ->).
    rewrite evalValue_named by by apply Hnames. by apply Hall. }
  rewrite Hb. simpl. split.
  - intros (k & v & Hk & Hv & Tv).
    assert (b = true) as ->; [| done].
    apply Hiff. exists (tenantRule segments k), v. split; [| split; [| done]].
    + eapply elem_of_values_2, elem_of_flagSegmentsOf_2; [done |].
      by apply named_not_proto, Hnames.
    + rewrite evalValue_named by by apply Hnames. done.
  - intros Hnone. destruct b; [| done].
    destruct (proj1 Hiff eq_refl) as (x & v & Hx & Hv & Tv).
    apply elem_of_values in Hx as [k Hk].
    apply elem_of_flagSegmentsOf in Hk as (Hk & _ & ->).
    rewrite evalValue_named in Hv by by apply Hnames.
    rewrite (Hnone k v Hk Hv) in Tv. done.
Qed.

(** X12.  A step can use only the segments that the flag lists: with the
    flag enabled and the rules passing, when every step names a segment that
    [flag.segments] does not list and whose name is not that of a member of
    [Object.prototype], the decision is the default result, also when the
    tenant has these segments. *)
Theorem unlisted_step_segments_fail input flag segments now :
  flag_enabled flag = true →
  every (rule_of input now) (flag_rules flag) = Return true →
  flag_rollouts flag ≠ [] →
  Forall (λ step, ∃ k, step_segment step = Some k ∧ k ≠ []
                       ∧ (k ∉ flag_segments flag)
                       ∧ (k ∉ JsObject.prototypeNames)) (flag_rollouts flag) →
  decide_flag input flag segments now = Return (getDefaultFlag flag).
Proof.
  intros En Hrules Hr Hsteps.
  rewrite evaluateFlag_steps, En, Hrules by done. simpl.
  rewrite run_steps_no_match; [done |].
  eapply Forall_impl; [exact Hsteps |].
  intros step (k & Hk & Hne & Hnin & Hname). exists (JBool false). split; [| done].
  unfold evaluateRolloutStep.
  destruct (lt_number now _); [done |].
  rewrite Hk. destruct k as [| c k]; [done |]. simpl.
  rewrite segmentRule_flagSegmentsOf, decide_False by (intros [? _]; done).
  by rewrite bool_decide_false.
Qed.

(** X13.  When no step throws, the walk over the steps returns, and it
    returns [true] exactly when some step passes. *)
Theorem run_steps_any jexlNow rollouts segs userId flagKey input now :
  Forall (λ step, ∃ v, run_step jexlNow step segs userId flagKey input now = Return v)
    rollouts →
  ∃ b, run_steps jexlNow rollouts segs userId flagKey input now = Return b
       ∧ (b = true
          ↔ Exists (step_passes evalSync dateGetTime jexlNow segs userId flagKey
                      input now) rollouts).
Proof.
  induction 1 as [| step rollouts [v Hv] _ (b & Hb & Hiff)]; simpl.
  - exists false. split; [done |]. split; [done | by intros ?%Exists_nil].
  - rewrite Hv. simpl. destruct (ToBoolean v) eqn:Tv.
    + exists true. split; [done |]. split; [| done].
      intros _. left. by exists v.
    + exists b. split; [done |]. rewrite Hiff, Exists_cons. split; [auto |].
      intros [(w & Hw & Tw) | H]; [| done].
      rewrite Hv in Hw. injection Hw as <-. congruence.
Qed.

End Shape.

(** ** The evaluation routes *)

Section RouteProperties.

Variable evalSync : NowFn → option jsstring → FlagEvaluationInput → outcome jsval.
Variable dateGetTime : jsstring → option Z.
Variable dateNow : nat → Z.

Abbreviation loop := (evalEntries evalSync dateGetTime dateNow).

Lemma evalEntries_app n xs ys segments input flagResult :
  loop n (xs ++ ys) segments input flagResult
  = loop n xs segments input flagResult
    ≫= loop (n + length xs) ys segments input.
Proof.
  revert n flagResult. induction xs as [| [k flag] xs IH]; intros n acc; simpl.
  - by rewrite Nat.add_0_r.
  - destruct (evaluateFlag _ _ _ _ _ _) as [r | e]; simpl; [| done].
    rewrite IH. by replace (S n + length xs)%nat with (n + S (length xs))%nat by lia.
Qed.

(** X14.  The loop of [POST /eval] has no handler: when the decision of one
    flag throws, after the flags before it were decided, the whole loop
    throws that exception and no answer is produced, whatever flags
    follow. *)
Theorem batch_aborts_on_throw n pre flagKey flag post segments input flagResult acc e :
  loop n pre segments input flagResult = Return acc →
  evaluateFlag evalSync dateGetTime input flag segments (dateNow (n + length pre))
  = Throw e →
  loop n (pre ++ (flagKey, flag) :: post) segments input flagResult = Throw e.
Proof.
  intros Hpre Hflag. rewrite evalEntries_app, Hpre. simpl. by rewrite Hflag.
Qed.

Lemma evalEntries_other n entries segments input flagResult out key :
  loop n entries segments input flagResult = Return out →
  key ∉ entries.*1 →
  JsObject.get out key = JsObject.get flagResult key.
Proof.
  revert n flagResult. induction entries as [| [k flag] entries IH];
    intros n acc; simpl.
  - by intros [= <-].
  - destruct (evaluateFlag _ _ _ _ _ _) as [r | e]; simpl; [| done].
    intros H Hk. apply not_elem_of_cons in Hk as [Hne Hk].
    rewrite (IH _ _ H Hk). by apply get_assign_ne.
Qed.

Lemma evalEntries_proto n entries segments input flagResult out :
  loop n entries segments input flagResult = Return out →
  JsObject.get flagResult (js "__proto__") = None →
  JsObject.get out (js "__proto__") = None.
Proof.
  revert n flagResult. induction entries as [| [k flag] entries IH];
    intros n acc; simpl.
  - by intros [= <-].
  - destruct (evaluateFlag _ _ _ _ _ _) as [r | e]; simpl; [| done].
    intros H Hacc. eapply IH; [exact H |]. by apply get_assign_proto.
Qed.

Lemma evalEntries_lookup n entries segments input flagResult out :
  NoDup entries.*1 →
  loop n entries segments input flagResult = Return out →
  ∀ i flagKey flag, entries !! i = Some (flagKey, flag) →
    flagKey ≠ js "__proto__" →
    ∃ r, evaluateFlag evalSync dateGetTime input flag segments (dateNow (n + i))
         = Return r
         ∧ JsObject.get out flagKey
           = Some {| ans_type := typeOf flag; ans_result := res_result r |}.
Proof.
  intros Hnd. revert n flagResult Hnd.
  induction entries as [| [k flag] entries IH]; intros n acc Hnd Hloop i key f Hi Hkey;
    [done |].
  simpl in Hloop. apply NoDup_cons in Hnd as [Hk Hnd]. simpl in Hk.
  destruct (evaluateFlag _ _ _ _ _ (dateNow n)) as [r | e] eqn:Hr; simpl in Hloop;
    [| done].
  destruct i as [| i]; simpl in Hi.
  - injection Hi as -> ->. exists r. rewrite Nat.add_0_r. split; [done |].
    rewrite (evalEntries_other _ _ _ _ _ _ _ Hloop Hk), get_assign_named by done.
    by rewrite decide_True.
  - replace (n + S i)%nat with (S n + i)%nat by lia.
    eapply IH; [done | exact Hloop | exact Hi | done].
Qed.

(** X15.  [entries] is [Object.entries(data.flags)], in whatever order the
    engine lists the keys.  When the loop of [POST /eval] returns, the
    response has, for every flag of the document whose key is not
    [__proto__], a property with the type of the flag and the result of its
    decision at the clock reading of its turn, and it has no other
    property. *)
Theorem batch_answers n entries (data : Storage.AppData) input out :
  entries ≡ₚ map_to_list (Storage.flags data) →
  loop n entries (Storage.segments data) input [] = Return out →
  (∀ flagKey flag,
     Storage.flags data !! flagKey = Some flag → flagKey ≠ js "__proto__" →
     ∃ i r, entries !! i = Some (flagKey, flag)
            ∧ evaluateFlag evalSync dateGetTime input flag (Storage.segments data)
                (dateNow (n + i)) = Return r
            ∧ JsObject.get out flagKey
              = Some {| ans_type := typeOf flag; ans_result := res_result r |})
  ∧ (∀ key, Storage.flags data !! key = None → JsObject.get out key = None)
  ∧ JsObject.get out (js "__proto__") = None.
Proof.
  intros Hperm Hloop.
  assert (NoDup entries.*1) as Hnd.
  { rewrite Hperm. apply NoDup_fst_map_to_list. }
  split; [| split].
  - intros flagKey flag Hflag Hkey.
    apply elem_of_map_to_list in Hflag. rewrite <- Hperm in Hflag.
    apply list_elem_of_lookup in Hflag as [i Hi]. exists i.
    destruct (evalEntries_lookup _ _ _ _ _ _ Hnd Hloop i flagKey flag Hi Hkey)
      as (r & Hr & Hout).
    by exists r.
  - intros key Hnone.
    rewrite (evalEntries_other _ _ _ _ _ _ _ Hloop); [done |].
    intros Hin. apply list_elem_of_fmap in Hin as ([k flag] & -> & Hin).
    rewrite Hperm in Hin. apply elem_of_map_to_list in Hin. simpl in Hnone.
    congruence.
  - by eapply evalEntries_proto.
Qed.

End RouteProperties.

(** * The mutators of the store *)

Section StoreProperties.

Import Storage Errors Store.

Implicit Types (self : AppKV) (kv : gmap jsstring AppData) (flag : FeatureFlag).

Lemma getData_saveData self kv data e :
  getData self (saveData self kv data e) e = data.
Proof. unfold getData, saveData. by rewrite lookup_insert_eq. Qed.

Lemma checkSegments_Fulfilled (input : list jsstring) (segs : gmap jsstring jsstring) :
  (∀ seg, seg ∈ input → is_Some (segs !! seg)) →
  checkSegments input segs = Fulfilled ().
Proof.
  intros Hall. unfold checkSegments.
  destruct (length input =? 0)%nat; [done |].
  assert (forallb (λ key, bool_decide (is_Some (segs !! key))) input = true) as ->;
    [| done].
  apply forallb_forall. intros seg Hseg. apply bool_decide_eq_true.
  apply Hall. by apply list_elem_of_In.
Qed.

Lemma checkSegments_Rejected (input : list jsstring) (segs : gmap jsstring jsstring) seg :
  seg ∈ input → segs !! seg = None →
  checkSegments input segs
  = Rejected (Flaggly {| message := "Add the segment before using it";
                         code := INVALID_BODY |}).
Proof.
  intros Hin Hnone. unfold checkSegments.
  destruct input as [| s input]; [by apply elem_of_nil in Hin |]. simpl length.
  replace (S (length input) =? 0)%nat with false by done.
  assert (forallb (λ key, bool_decide (is_Some (segs !! key))) (s :: input) = false)
    as ->; [| done].
  apply not_true_is_false. intros Hall.
  rewrite forallb_forall in Hall.
  specialize (Hall seg (proj1 (list_elem_of_In _ _) Hin)).
  apply bool_decide_eq_true in Hall. rewrite Hnone in Hall. by destruct Hall.
Qed.

(** X16.  [putFlag] with a flag that lists a segment which the document does
    not have answers [INVALID_BODY], status 400, and writes nothing. *)
Theorem putFlag_missing_segment self kv flag seg :
  seg ∈ flag_segments flag →
  segments (getData self kv None) !! seg = None →
  ∃ e, putFlag self kv flag = (kv, Err e)
       ∧ code e = INVALID_BODY ∧ statusCode e = 400.
Proof.
  intros Hin Hnone. unfold putFlag, Private.putFlag, settle.
  rewrite (checkSegments_Rejected _ _ seg Hin Hnone). simpl.
  eexists. split; [reflexivity | done].
Qed.

Lemma lookup_assign_named {V} (o : gmap jsstring V) (k : jsstring) (v : V) :
  k ≠ js "__proto__" → assign o k v = <[k := v]> o.
Proof. intros H. unfold assign. by rewrite bool_decide_false. Qed.

Lemma lookup_assign_ne {V} (o : gmap jsstring V) (k k' : jsstring) (v : V) :
  k ≠ k' → assign o k v !! k' = o !! k'.
Proof.
  intros H. unfold assign. destruct (_ && _); [done |]. by apply lookup_insert_ne.
Qed.

Lemma lookup_assign_Some {V} (o : gmap jsstring V) (k k' : jsstring) (v w : V) :
  assign o k v !! k' = Some w → (k' = k ∧ w = v) ∨ o !! k' = Some w.
Proof.
  unfold assign. destruct (_ && _); [by right |].
  destruct (decide (k = k')) as [-> | Hne].
  - rewrite lookup_insert_eq. intros [= <-]. by left.
  - rewrite lookup_insert_ne by done. by right.
Qed.

Lemma lookup_assign_is_Some {V} (o : gmap jsstring V) (k k' : jsstring) (v : V) :
  is_Some (o !! k') → is_Some (assign o k v !! k').
Proof.
  intros H. unfold assign. destruct (_ && _); [done |].
  destruct (decide (k = k')) as [-> | Hne].
  - rewrite lookup_insert_eq. by eexists.
  - by rewrite lookup_insert_ne.
Qed.

(** X17.  [putFlag] with a flag whose id is not [__proto__] and all of whose
    segments the document has succeeds: the document it returns is the
    document stored, it has the flag under the flag's id, and its other
    flags and its segments are those of before. *)
Theorem putFlag_stores self kv flag :
  flag_id flag ≠ js "__proto__" →
  (∀ seg, seg ∈ flag_segments flag →
          is_Some (segments (getData self kv None) !! seg)) →
  ∃ data, putFlag self kv flag = (saveData self kv data None, Ok data)
          ∧ getData self (putFlag self kv flag).1 None = data
          ∧ flags data !! flag_id flag = Some flag
          ∧ (∀ k, k ≠ flag_id flag →
                  flags data !! k = flags (getData self kv None) !! k)
          ∧ segments data = segments (getData self kv None).
Proof.
  intros Hid Hall. unfold putFlag, Private.putFlag, settle.
  rewrite (checkSegments_Fulfilled _ _ Hall). simpl.
  eexists. split; [reflexivity |]. split; [apply getData_saveData |].
  simpl. rewrite lookup_assign_named by done.
  split; [apply lookup_insert_eq |]. split; [| done].
  intros k Hk. by apply lookup_insert_ne.
Qed.

(** X18.  [deleteFlag] of an id that the document does not have answers
    [NOT_FOUND], status 404, and writes nothing; of an id that it has, it
    removes that flag and leaves the other flags and the segments. *)
Theorem deleteFlag_outcome self kv id :
  (flags (getData self kv None) !! id = None →
   ∃ e, deleteFlag self kv id = (kv, Err e)
        ∧ code e = NOT_FOUND ∧ statusCode e = 404)
  ∧ (is_Some (flags (getData self kv None) !! id) →
     ∃ data, deleteFlag self kv id = (saveData self kv data None, Ok data)
             ∧ getData self (deleteFlag self kv id).1 None = data
             ∧ flags data !! id = None
             ∧ (∀ k, k ≠ id → flags data !! k = flags (getData self kv None) !! k)
             ∧ segments data = segments (getData self kv None)).
Proof.
  unfold deleteFlag, Private.deleteFlag, settle, checkFlag. split.
  - intros Hnone. rewrite Hnone, bool_decide_false by (by intros [? ?]). simpl.
    eexists. split; [reflexivity | done].
  - intros Hsome. rewrite bool_decide_true by done. simpl.
    eexists. split; [reflexivity |]. split; [apply getData_saveData |].
    simpl. split; [apply lookup_delete_eq |]. split; [| done].
    intros k Hk. by apply lookup_delete_ne.
Qed.

(** X19.  [putSegment] with an id that is not [__proto__] answers with the
    document it stored: the rule stands under the id, whether the segment
    is new or not, and the other segments and every flag are those of
    before. *)
Theorem putSegment_upserts self kv id rule :
  id ≠ js "__proto__" →
  ∃ data, putSegment self kv id rule = (saveData self kv data None, Ok data)
          ∧ getData self (putSegment self kv id rule).1 None = data
          ∧ segments data !! id = Some rule
          ∧ (∀ k, k ≠ id → segments data !! k = segments (getData self kv None) !! k)
          ∧ flags data = flags (getData self kv None).
Proof.
  intros Hid. unfold putSegment, Private.putSegment, settle. simpl.
  eexists. split; [reflexivity |]. split; [apply getData_saveData |].
  simpl. rewrite lookup_assign_named by done.
  split; [apply lookup_insert_eq |]. split; [| done].
  intros k Hk. by apply lookup_insert_ne.
Qed.

(** Under the id [__proto__], which the document of the store does not
    have as a key, [putFlag] and [putSegment] answer with the document they
    read: the assignment adds no key, and the document is written back as it
    was. *)
Lemma put_proto_stores_nothing self kv flag rule :
  flags (getData self kv None) !! js "__proto__" = None →
  segments (getData self kv None) !! js "__proto__" = None →
  flag_id flag = js "__proto__" → flag_segments flag = [] →
  putFlag self kv flag
  = (saveData self kv (getData self kv None) None, Ok (getData self kv None))
  ∧ putSegment self kv (js "__proto__") rule
    = (saveData self kv (getData self kv None) None, Ok (getData self kv None)).
Proof.
  intros Hf Hs Hid Hsegs.
  unfold putFlag, putSegment, Private.putFlag, Private.putSegment, settle, assign.
  rewrite Hid, Hsegs, Hf, Hs. simpl.
  by destruct (getData self kv None).
Qed.

Lemma filter_without (id : jsstring) (segs : list jsstring) :
  existsb (λ seg, bool_decide (seg = id)) segs = false →
  List.filter (λ seg, negb (bool_decide (seg = id))) segs = segs.
Proof.
  induction segs as [| s segs IH]; simpl; [done |].
  destruct (bool_decide (s = id)); simpl; [done |].
  intros H. by rewrite IH.
Qed.

Lemma stripSegment_segments id flag :
  flag_segments (Private.stripSegment id flag)
  = List.filter (λ seg, negb (bool_decide (seg = id))) (flag_segments flag).
Proof.
  unfold Private.stripSegment.
  destruct (_ && _) eqn:H; [done |].
  apply andb_false_iff in H as [H | H].
  - destruct (flag_segments flag); done.
  - by rewrite filter_without.
Qed.

Lemma stripSegment_rest id flag :
  set_segments (flag_segments flag) (Private.stripSegment id flag) = flag.
Proof.
  unfold Private.stripSegment.
  destruct (_ && _); by destruct flag.
Qed.

(** X20.  [deleteSegment] of an id that the document does not have answers
    [NOT_FOUND], status 404, and writes nothing. *)
Theorem deleteSegment_missing self kv id :
  segments (getData self kv None) !! id = None →
  ∃ e, deleteSegment self kv id = (kv, Err e)
       ∧ code e = NOT_FOUND ∧ statusCode e = 404.
Proof.
  intros Hnone. unfold deleteSegment, Private.deleteSegment, settle.
  rewrite Hnone, bool_decide_false by (by intros [? ?]). simpl.
  eexists. split; [reflexivity | done].
Qed.

(** X21.  [deleteSegment] of a segment that the document has removes it from
    the segments and from the list of every flag, in one write: each flag
    keeps its other segments in their order and its other fields, no flag is
    added or removed, and the other segments stay. *)
Theorem deleteSegment_cascades self kv id :
  is_Some (segments (getData self kv None) !! id) →
  ∃ data, deleteSegment self kv id = (saveData self kv data None, Ok data)
          ∧ getData self (deleteSegment self kv id).1 None = data
          ∧ segments data !! id = None
          ∧ (∀ k, k ≠ id → segments data !! k = segments (getData self kv None) !! k)
          ∧ (∀ k, flags data !! k
                  = Private.stripSegment id <$> (flags (getData self kv None) !! k))
          ∧ (∀ flag, flag_segments (Private.stripSegment id flag)
                     = List.filter (λ seg, negb (bool_decide (seg = id)))
                         (flag_segments flag)
                     ∧ (id ∉ flag_segments (Private.stripSegment id flag))
                     ∧ set_segments (flag_segments flag) (Private.stripSegment id flag)
                       = flag).
Proof.
  intros Hsome. unfold deleteSegment, Private.deleteSegment, settle.
  rewrite bool_decide_true by done. simpl.
  eexists. split; [reflexivity |]. split; [apply getData_saveData |].
  simpl. split; [apply lookup_delete_eq |].
  split; [intros k Hk; by apply lookup_delete_ne |].
  split; [intros k; apply lookup_fmap |].
  intros flag. split; [apply stripSegment_segments |].
  split; [| apply stripSegment_rest].
  rewrite stripSegment_segments, list_elem_of_In, filter_In.
  intros [_ H]. apply negb_true_iff, bool_decide_eq_false in H. done.
Qed.

(** *** The invariant of the references *)

Lemma closed_stripSegment (data : AppData) id :
  closed data →
  closed {| flags := Private.stripSegment id <$> flags data;
            segments := delete id (segments data) |}.
Proof.
  intros Hc k flag' Hk seg Hseg. simpl in *.
  rewrite lookup_fmap in Hk.
  destruct (flags data !! k) as [flag |] eqn:E; [| done].
  injection Hk as <-.
  rewrite stripSegment_segments, list_elem_of_In, filter_In in Hseg.
  destruct Hseg as [Hin Hne].
  apply negb_true_iff, bool_decide_eq_false in Hne.
  rewrite lookup_delete_ne by done.
  eapply Hc; [exact E |]. by apply list_elem_of_In.
Qed.

(** X22.  The mutators keep the references of a document closed: from a
    document in which every flag lists only segments of the document, a
    successful [putFlag], [deleteFlag], [putSegment] or [deleteSegment]
    returns, and stores, such a document. *)
Theorem mutators_keep_closed self kv :
  closed (getData self kv None) →
  (∀ flag data, (putFlag self kv flag).2 = Ok data → closed data)
  ∧ (∀ id data, (deleteFlag self kv id).2 = Ok data → closed data)
  ∧ (∀ id rule data, (putSegment self kv id rule).2 = Ok data → closed data)
  ∧ (∀ id data, (deleteSegment self kv id).2 = Ok data → closed data).
Proof.
  intros Hc. split; [| split; [| split]].
  - intros flag data. unfold putFlag, Private.putFlag, settle.
    destruct (checkSegments _ _) as [[] | reason] eqn:E; simpl.
    + intros [= <-] k f Hk seg Hseg. simpl in *.
      apply lookup_assign_Some in Hk as [[-> ->] | Hk]; [| by eapply Hc].
      destruct (segments (getData self kv None) !! seg) eqn:Hs; [by eexists |].
      rewrite (checkSegments_Rejected _ _ seg Hseg Hs) in E. done.
    + by destruct reason.
  - intros id data. unfold deleteFlag, Private.deleteFlag, settle.
    destruct (checkFlag _ _) as [[] | reason]; simpl; [| by destruct reason].
    intros [= <-] k f Hk seg Hseg. simpl in *.
    apply lookup_delete_Some in Hk as [_ Hk]. by eapply Hc.
  - intros id rule data. unfold putSegment, Private.putSegment, settle. simpl.
    intros [= <-] k f Hk seg Hseg. simpl in *.
    apply lookup_assign_is_Some. by eapply Hc.
  - intros id data. unfold deleteSegment, Private.deleteSegment, settle.
    destruct (negb _); simpl; [done |].
    intros [= <-]. by apply closed_stripSegment.
Qed.

(** *** Synchronisation *)


(** X23.  [syncFlag] of an id that the source document does not have answers
    [NOT_FOUND], status 404, and writes nothing. *)
Theorem syncFlag_missing self kv input id :
  flags (getData self kv (Some (default (env self) (sourceEnv input)))) !! id = None →
  ∃ e, syncFlag self kv input id = (kv, Err e)
       ∧ code e = NOT_FOUND ∧ statusCode e = 404.
Proof.
  intros Hnone. unfold syncFlag, Private.syncFlag, settle, checkFlag.
  rewrite Hnone, bool_decide_false by (by intros [? ?]). simpl.
  eexists. split; [reflexivity | done].
Qed.



Lemma AppData_eq (a b : AppData) :
  flags a = flags b → segments a = segments b → a = b.
Proof. destruct a, b. simpl. by intros -> ->. Qed.

Lemma getData_saveData_ne self kv data e e' :
  cacheKey self e' ≠ cacheKey self e →
  getData self (saveData self kv data e') e = getData self kv e.
Proof. intros Hne. unfold getData, saveData. by rewrite lookup_insert_ne. Qed.

Lemma synced_twice self kv input :
  (syncEnv self (syncEnv self kv input).1 input).2 = (syncEnv self kv input).2.
Proof.
  change (syncEnv self kv input).1
    with (saveData self kv (syncEnv self kv input).2 (Some (targetEnv input))).
  set (synced := (syncEnv self kv input).2).
  set (kv1 := saveData self kv synced (Some (targetEnv input))).
  assert (getData self kv1 (Some (targetEnv input)) = synced) as Ht
      by apply getData_saveData.
  destruct (decide (cacheKey self (Some (targetEnv input))
                    = cacheKey self (Some (default (env self) (sourceEnv input)))))
    as [Heq | Hne].
  - assert (getData self kv1 (Some (default (env self) (sourceEnv input))) = synced)
      as Hs.
    { unfold getData, kv1, saveData. by rewrite <- Heq, lookup_insert_eq. }
    assert (getData self kv (Some (default (env self) (sourceEnv input)))
            = getData self kv (Some (targetEnv input))) as Hst.
    { unfold getData. by rewrite Heq. }
    apply AppData_eq; apply map_eq; intros k.
    + rewrite synced_flags, Hs, Ht. unfold synced. rewrite synced_flags, Hst.
      destruct (flags _ !! k); [| done]. by destruct (overwrite input).
    + rewrite synced_segments, Hs, Ht. unfold synced. rewrite synced_segments, Hst.
      by destruct (segments _ !! k).
  - assert (getData self kv1 (Some (default (env self) (sourceEnv input)))
            = getData self kv (Some (default (env self) (sourceEnv input)))) as Hs
        by by apply getData_saveData_ne.
    apply AppData_eq; apply map_eq; intros k.
    + rewrite synced_flags, Hs, Ht. unfold synced. rewrite synced_flags.
      by destruct (flags _ !! k).
    + rewrite synced_segments, Hs, Ht. unfold synced. rewrite synced_segments.
      by destruct (segments _ !! k).
Qed.

(** X26.  [syncEnv] is idempotent: run again on the store it left, it
    returns the same document and leaves the same store. *)
Theorem syncEnv_idempotent self kv input :
  syncEnv self (syncEnv self kv input).1 input = syncEnv self kv input.
Proof.
  pose proof (synced_twice self kv input) as H2.
  apply injective_projections; [| exact H2].
  change (saveData self (syncEnv self kv input).1
            (syncEnv self (syncEnv self kv input).1 input).2
            (Some (targetEnv input))
          = saveData self kv (syncEnv self kv input).2 (Some (targetEnv input))).
  rewrite H2.
  change (syncEnv self kv input).1
    with (saveData self kv (syncEnv self kv input).2 (Some (targetEnv input))).
  unfold saveData. apply insert_insert_eq.
Qed.


(** *** Tenants *)

Lemma app_colon_inj (a a' e e' : jsstring) :
  58 ∉ a → 58 ∉ a' → a ++ 58 :: e = a' ++ 58 :: e' → a = a' ∧ e = e'.
Proof.
  revert a'. induction a as [| c a IH]; intros [| c' a'] Ha Ha'; simpl.
  - by intros [= ->].
  - intros [= <- _]. exfalso. apply Ha'. left.
  - intros [= -> _]. exfalso. apply Ha. left.
  - intros [= -> H]. apply not_elem_of_cons in Ha as [_ Ha].
    apply not_elem_of_cons in Ha' as [_ Ha'].
    destruct (IH a' Ha Ha' H) as [-> ->]. done.
Qed.

Lemma cacheKey_inj self self' e e' :
  58 ∉ app self → 58 ∉ app self' →
  cacheKey self e = cacheKey self' e' →
  app self = app self' ∧ default (env self) e = default (env self') e'.
Proof.
  intros Ha Ha'. unfold cacheKey. intros H.
  apply app_inv_head in H. by apply app_colon_inj.
Qed.

(** X28.  The key of a tenant is [v1:<app>:<env>].  Two tenants whose app
    ids have no colon have the same key only if they have the same app and
    the same environment; an app id with a colon shares its key with a
    shorter app id and a longer environment. *)
Theorem cacheKey_tenants :
  (∀ self self' e e',
     58 ∉ app self → 58 ∉ app self' →
     cacheKey self e = cacheKey self' e' →
     app self = app self' ∧ default (env self) e = default (env self') e')
  ∧ (∀ a b c : jsstring,
       cacheKey {| app := a ++ js ":" ++ b; env := c |} None
       = cacheKey {| app := a; env := b ++ js ":" ++ c |} None).
Proof.
  split; [apply cacheKey_inj |].
  intros a b c. unfold cacheKey. simpl. by rewrite <- !app_assoc.
Qed.

(** X29.  A mutator writes the document of its own tenant only: for two
    tenants whose app ids have no colon and that differ in app or
    environment, [putFlag], [deleteFlag], [putSegment] and [deleteSegment]
    of the one leave the document of the other as it was. *)
Theorem mutators_isolate_tenants self self' kv :
  58 ∉ app self → 58 ∉ app self' →
  (app self, env self) ≠ (app self', env self') →
  (∀ flag, getData self' (putFlag self kv flag).1 None = getData self' kv None)
  ∧ (∀ id, getData self' (deleteFlag self kv id).1 None = getData self' kv None)
  ∧ (∀ id rule, getData self' (putSegment self kv id rule).1 None
                = getData self' kv None)
  ∧ (∀ id, getData self' (deleteSegment self kv id).1 None = getData self' kv None).
Proof.
  intros Ha Ha' Hdiff.
  assert (cacheKey self None ≠ cacheKey self' None) as Hkey.
  { intros H. destruct (cacheKey_inj _ _ _ _ Ha Ha' H) as [H1 H2].
    simpl in H2. apply Hdiff. by rewrite H1, H2. }
  assert (∀ data, getData self' (saveData self kv data None) None
                  = getData self' kv None) as Hsave.
  { intros data. unfold getData, saveData. by rewrite lookup_insert_ne. }
  split; [| split; [| split]].
  - intros flag. unfold putFlag, Private.putFlag, settle.
    destruct (checkSegments _ _); simpl; [apply Hsave | done].
  - intros id. unfold deleteFlag, Private.deleteFlag, settle.
    destruct (checkFlag _ _); simpl; [apply Hsave | done].
  - intros id rule. unfold putSegment, Private.putSegment, settle. simpl.
    apply Hsave.
  - intros id. unfold deleteSegment, Private.deleteSegment, settle.
    destruct (negb _); simpl; [done | apply Hsave].
Qed.

End StoreProperties.

(** * The origin of the CORS middleware *)

Lemma split_not_nil sep s : split sep s ≠ [].
Proof.
  destruct s as [| c s]; simpl; [done |].
  destruct (c =? sep); [done |]. by destruct (split sep s).
Qed.

Lemma join_split sep s : join sep (split sep s) = s.
Proof.
  induction s as [| c s IH]; simpl; [done |].
  destruct (c =? sep) eqn:E.
  - apply Z.eqb_eq in E as ->.
    pose proof (split_not_nil sep s).
    destruct (split sep s) as [| piece pieces] eqn:Hs; [done |].
    simpl in *. f_equal. exact IH.
  - pose proof (split_not_nil sep s).
    destruct (split sep s) as [| piece pieces] eqn:Hs; [done |].
    destruct pieces as [| piece' pieces]; simpl in *; by rewrite IH.
Qed.

(** X30.  The CORS origin is never an origin outside the configured list,
    whose comma-joined pieces are the configured text.  A request without an
    [Origin] header gets none.  With one configured origin every request that
    sends an [Origin] gets that origin, whatever it sent; with several, a
    request gets its own origin back, and only if it is configured. *)
Theorem corsOrigin_allowed ORIGIN incomingOrigin :
  join 44 (split 44 ORIGIN) = ORIGIN
  ∧ (∀ origin, corsOrigin ORIGIN incomingOrigin = Some origin →
               origin ∈ split 44 ORIGIN)
  ∧ (incomingOrigin = None ∨ incomingOrigin = Some [] →
     corsOrigin ORIGIN incomingOrigin = None)
  ∧ (∀ incoming only, incomingOrigin = Some incoming → incoming ≠ [] →
       split 44 ORIGIN = [only] →
       corsOrigin ORIGIN incomingOrigin = Some only)
  ∧ (∀ incoming, incomingOrigin = Some incoming → incoming ≠ [] →
       length (split 44 ORIGIN) ≠ 1%nat →
       corsOrigin ORIGIN incomingOrigin
       = if decide (incoming ∈ split 44 ORIGIN) then Some incoming else None).
Proof.
  split; [apply join_split |]. unfold corsOrigin.
  split; [| split; [| split]].
  - intros origin. destruct incomingOrigin as [incoming |]; [| done].
    destruct (negb _); [done |].
    destruct (length _ =? 1)%nat.
    + destruct (split 44 ORIGIN); simpl; [done |]. intros [= ->]. left.
    + intros H. apply find_some in H as [H _]. by apply list_elem_of_In.
  - by intros [-> | ->].
  - intros incoming only -> Hne ->. by destruct incoming.
  - intros incoming -> Hne Hlen.
    assert (JsString.truthy incoming = true) as -> by by destruct incoming.
    simpl. apply Nat.eqb_neq in Hlen. rewrite Hlen.
    destruct (decide (incoming ∈ split 44 ORIGIN)) as [Hin | Hnin].
    + destruct (List.find _ _) as [o |] eqn:E.
      * apply find_some in E as [_ E]. by apply bool_decide_eq_true in E as ->.
      * eapply find_none in E; [| by apply list_elem_of_In].
        by apply bool_decide_eq_false in E.
    + destruct (List.find _ _) as [o |] eqn:E; [| done].
      apply find_some in E as [Ho E]. apply bool_decide_eq_true in E as ->.
      by apply list_elem_of_In in Ho.
Qed.

(** * Examples for the further properties *)

Lemma isUserInRollout_monotone_witness :
  isUserInRollout (Some (js "user-456")) (js "new-dashboard") 60 = true.
Proof.
  apply (isUserInRollout_monotone (Some (js "user-456")) (js "new-dashboard") 50 60).
  - lia.
  - vm_compute. reflexivity.
Defined.

Lemma chooseVariant_prefix_witness :
  chooseVariant (Some (js "user-456")) (js "new-dashboard")
    ([variation "control" 50] ++ [variation "test" 10])
  = Some (js "control").
Proof.
  apply (chooseVariant_prefix (Some (js "user-456")) (js "new-dashboard")
           [variation "control" 50] [variation "test" 10] (js "control")).
  vm_compute. reflexivity.
Defined.

Lemma firedResult_variant_total_witness :
  ∃ v, chooseVariant (Some (js "user-123")) (flag_id fullVariantFlag)
         [variation "control" 50; variation "test" 50] = Some (var_id v)
       ∧ List.find (λ x, bool_decide (var_id x = var_id v))
           [variation "control" 50; variation "test" 50] = Some v
       ∧ firedResult fullVariantFlag (Some (js "user-123"))
         = Return {| res_type := RVariant;
                     res_result := nullish (var_payload v) (JStr (var_id v));
                     res_isEval := true |}.
Proof.
  apply (firedResult_variant_total fullVariantFlag (Some (js "user-123"))
           [variation "control" 50; variation "test" 50] eq_refl).
  - repeat constructor; simpl; lia.
  - simpl. lia.
Defined.

Lemma decision_shape_witness :
  res_type {| res_type := RBoolean; res_result := JBool true; res_isEval := true |}
  = typeOf halfFlag.
Proof.
  apply (decision_shape literalEval tableDate (visitor "user-456") halfFlag ∅ 0
           {| res_type := RBoolean; res_result := JBool true; res_isEval := true |}).
  vm_compute. reflexivity.
Defined.

Lemma rollout_raise_keeps_fired_witness :
  evaluateFlag literalEval tableDate (visitor "user-456")
    (set_rollout 60 (booleanFlag "new-dashboard")) ∅ 0
  = Return {| res_type := RBoolean; res_result := JBool true; res_isEval := true |}.
Proof.
  apply (rollout_raise_keeps_fired literalEval tableDate (visitor "user-456")
           (booleanFlag "new-dashboard") ∅ 0 50 60).
  - lia.
  - vm_compute. reflexivity.
  - reflexivity.
Defined.

Lemma rollout_zero_never_fires_witness :
  {| res_type := RBoolean; res_result := JBool false; res_isEval := false |}
  = getDefaultFlag (set_rollout 0 (booleanFlag "checkout")).
Proof.
  apply (rollout_zero_never_fires literalEval tableDate (visitor "user-456")
           (set_rollout 0 (booleanFlag "checkout")) ∅ 0).
  - reflexivity.
  - simpl. lia.
  - vm_compute. reflexivity.
Defined.

Lemma standalone_segments_any_witness :
  evaluateFlag literalEval tableDate (visitor "user-123") segmentedFlag
    tenantSegments 0
  = if isUserInRollout (input_id (visitor "user-123")) (flag_id segmentedFlag)
         (flag_rollout segmentedFlag)
    then firedResult segmentedFlag (input_id (visitor "user-123"))
    else Return (getDefaultFlag segmentedFlag).
Proof.
  apply (standalone_segments_any literalEval tableDate (visitor "user-123")
           segmentedFlag tenantSegments 0 eq_refl eq_refl).
  - done.
  - intros k Hk. simpl in Hk.
    apply elem_of_cons in Hk as [-> | Hk];
      [apply (bool_decide_unpack _); vm_compute; exact I |].
    apply elem_of_cons in Hk as [-> | Hk];
      [apply (bool_decide_unpack _); vm_compute; exact I |].
    by apply elem_of_nil in Hk.
  - reflexivity.
  - intros k Hk. simpl in Hk.
    apply elem_of_cons in Hk as [-> | Hk]; [by eexists |].
    apply elem_of_cons in Hk as [-> | Hk]; [by eexists |].
    by apply elem_of_nil in Hk.
  - exists (js "betaUsers"), (JBool true).
    split; [right; left | done].
Defined.

Lemma unlisted_step_segments_fail_witness :
  evaluateFlag literalEval tableDate (visitor "user-123") unlistedStepFlag
    ghostSegments 1704067200000
  = Return (getDefaultFlag unlistedStepFlag).
Proof.
  apply (unlisted_step_segments_fail literalEval tableDate (visitor "user-123")
           unlistedStepFlag ghostSegments 1704067200000 eq_refl eq_refl).
  - done.
  - repeat constructor. exists (js "ghost").
    split; [done |]. split; [done |]. split; [simpl; apply not_elem_of_nil |].
    apply (bool_decide_unpack _). vm_compute. exact I.
Defined.

Lemma run_steps_any_witness :
  ∃ b, evaluateRolloutSteps literalEval tableDate WallClock (flag_rollouts steppedFlag)
         [] (Some (js "user-123")) (js "checkout") (visitor "user-123") 1735689600000
       = Return b
       ∧ (b = true
          ↔ Exists (step_passes literalEval tableDate WallClock []
                      (Some (js "user-123")) (js "checkout") (visitor "user-123")
                      1735689600000) (flag_rollouts steppedFlag)).
Proof.
  apply (run_steps_any literalEval tableDate WallClock (flag_rollouts steppedFlag) []
           (Some (js "user-123")) (js "checkout") (visitor "user-123") 1735689600000).
  repeat constructor; by eexists.
Defined.

Lemma batch_aborts_on_throw_witness :
  evalEntries literalEval tableDate fixedClock 0
    ([(js "new-dashboard", halfFlag)]
       ++ (js "checkout", malformedRuleFlag) :: [(js "legacy", booleanFlag "legacy")])
    ∅ (visitor "user-123") []
  = Throw (Error "parse error").
Proof.
  apply (batch_aborts_on_throw literalEval tableDate fixedClock 0
           [(js "new-dashboard", halfFlag)] (js "checkout") malformedRuleFlag
           [(js "legacy", booleanFlag "legacy")] ∅ (visitor "user-123") []
           [(js "new-dashboard",
             {| ans_type := RBoolean; ans_result := JBool false |})]
           (Error "parse error")).
  - vm_compute. reflexivity.
  - reflexivity.
Defined.

Lemma batch_answers_witness :
  ∃ i r,
    [(js "checkout", booleanFlag "checkout")] !! i
    = Some (js "checkout", booleanFlag "checkout")
    ∧ evaluateFlag literalEval tableDate (visitor "user-123")
        (booleanFlag "checkout") (Storage.segments productionData)
        (fixedClock (0 + i)) = Return r
    ∧ JsObject.get
        [(js "checkout", {| ans_type := RBoolean; ans_result := JBool true |})]
        (js "checkout")
      = Some {| ans_type := typeOf (booleanFlag "checkout");
                ans_result := res_result r |}.
Proof.
  destruct (batch_answers literalEval tableDate fixedClock 0
              [(js "checkout", booleanFlag "checkout")] productionData
              (visitor "user-123")
              [(js "checkout", {| ans_type := RBoolean; ans_result := JBool true |})])
    as (Hflags & _ & _).
  - simpl. by rewrite map_to_list_singleton.
  - vm_compute. reflexivity.
  - apply (Hflags (js "checkout") (booleanFlag "checkout")).
    + apply lookup_singleton_eq.
    + intros H. vm_compute in H. discriminate H.
Defined.

Lemma putFlag_missing_segment_witness :
  ∃ e, Store.putFlag sampleAppKV sampleKV segmentedFlag = (sampleKV, Errors.Err e)
       ∧ Errors.code e = Errors.INVALID_BODY ∧ Errors.statusCode e = 400.
Proof.
  apply (putFlag_missing_segment sampleAppKV sampleKV segmentedFlag
           (js "premiumUsers")).
  - left.
  - vm_compute. reflexivity.
Defined.

Lemma putFlag_stores_witness :
  ∃ data,
    Store.putFlag sampleAppKV sampleKV halfFlag
    = (Storage.saveData sampleAppKV sampleKV data None, Errors.Ok data)
    ∧ Storage.getData sampleAppKV (Store.putFlag sampleAppKV sampleKV halfFlag).1 None
      = data
    ∧ Storage.flags data !! flag_id halfFlag = Some halfFlag
    ∧ (∀ k, k ≠ flag_id halfFlag →
            Storage.flags data !! k
            = Storage.flags (Storage.getData sampleAppKV sampleKV None) !! k)
    ∧ Storage.segments data
      = Storage.segments (Storage.getData sampleAppKV sampleKV None).
Proof.
  apply (putFlag_stores sampleAppKV sampleKV halfFlag).
  - intros H. vm_compute in H. discriminate H.
  - intros seg Hseg. by apply elem_of_nil in Hseg.
Defined.

Lemma putSegment_upserts_witness :
  ∃ data,
    Store.putSegment sampleAppKV sampleKV (js "beta") (js "false")
    = (Storage.saveData sampleAppKV sampleKV data None, Errors.Ok data)
    ∧ Storage.getData sampleAppKV
        (Store.putSegment sampleAppKV sampleKV (js "beta") (js "false")).1 None
      = data
    ∧ Storage.segments data !! js "beta" = Some (js "false")
    ∧ (∀ k, k ≠ js "beta" →
            Storage.segments data !! k
            = Storage.segments (Storage.getData sampleAppKV sampleKV None) !! k)
    ∧ Storage.flags data
      = Storage.flags (Storage.getData sampleAppKV sampleKV None).
Proof.
  apply (putSegment_upserts sampleAppKV sampleKV (js "beta") (js "false")).
  intros H. vm_compute in H. discriminate H.
Defined.

Lemma deleteSegment_missing_witness :
  ∃ e, Store.deleteSegment sampleAppKV sampleKV (js "ghost")
       = (sampleKV, Errors.Err e)
       ∧ Errors.code e = Errors.NOT_FOUND ∧ Errors.statusCode e = 404.
Proof.
  apply (deleteSegment_missing sampleAppKV sampleKV (js "ghost")).
  vm_compute. reflexivity.
Defined.

Lemma deleteSegment_cascades_witness :
  ∃ data,
    Store.deleteSegment sampleAppKV betaKV (js "beta")
    = (Storage.saveData sampleAppKV betaKV data None, Errors.Ok data)
    ∧ Storage.segments data !! js "beta" = None
    ∧ Storage.flags data !! js "beta-only"
      = Some (Store.Private.stripSegment (js "beta") betaFlag)
    ∧ flag_segments (Store.Private.stripSegment (js "beta") betaFlag) = [].
Proof.
  destruct (deleteSegment_cascades sampleAppKV betaKV (js "beta"))
    as (data & Hd & _ & Hs & _ & Hf & _).
  - eexists. vm_compute. reflexivity.
  - exists data. split; [exact Hd |]. split; [exact Hs |].
    split; [| reflexivity]. rewrite Hf. vm_compute. reflexivity.
Defined.

Lemma betaKV_production_closed :
  Store.closed (Storage.getData sampleAppKV betaKV None).
Proof.
  assert (Storage.getData sampleAppKV betaKV None
          = {| Storage.flags := {[ js "beta-only" := betaFlag ]};
               Storage.segments := {[ js "beta" := js "true" ]} |}) as ->
      by (vm_compute; reflexivity).
  intros k f Hk seg Hseg. simpl in *.
  apply lookup_singleton_Some in Hk as [_ <-].
  simpl in Hseg. apply list_elem_of_singleton in Hseg as ->.
  rewrite lookup_singleton_eq. by eexists.
Qed.


Lemma mutators_keep_closed_witness :
  Store.closed
    (Storage.getData sampleAppKV
       (Store.putSegment sampleAppKV betaKV (js "internal") (js "false")).1 None).
Proof.
  destruct (mutators_keep_closed sampleAppKV betaKV betaKV_production_closed)
    as (_ & _ & Hput & _).
  apply (Hput (js "internal") (js "false")).
  vm_compute. reflexivity.
Defined.

Lemma syncFlag_missing_witness :
  ∃ e, Store.syncFlag sampleAppKV sampleKV (toStaging false) (js "ghost")
       = (sampleKV, Errors.Err e)
       ∧ Errors.code e = Errors.NOT_FOUND ∧ Errors.statusCode e = 404.
Proof.
  apply (syncFlag_missing sampleAppKV sampleKV (toStaging false) (js "ghost")).
  vm_compute. reflexivity.
Defined.




Lemma mutators_isolate_tenants_witness :
  Storage.getData stagingAppKV (Store.putFlag sampleAppKV sampleKV halfFlag).1 None
  = Storage.getData stagingAppKV sampleKV None.
Proof.
  destruct (mutators_isolate_tenants sampleAppKV stagingAppKV sampleKV)
    as (Hput & _).
  - apply (bool_decide_unpack _). vm_compute. exact I.
  - apply (bool_decide_unpack _). vm_compute. exact I.
  - intros H. vm_compute in H. discriminate H.
  - apply Hput.
Defined.
